(** * Query classification and context extraction (query_processor.py)

    A shallow embedding of [QueryValidator], [QueryAnalyzer] and
    [QueryProcessor], with the part of Python's [re] and [str] they use.

    Conventions of the model.
    - A Python [str] is a list of code points below 256 (the type [ascii],
      read as the Latin-1 block of Unicode).  [isspace], [isalnum] and
      [lower_char] are Python's on that block, so [\s], [\w], [\b],
      [str.strip] and [str.lower] agree with CPython there.
    - A regular expression is a syntax tree; matching is the backtracking
      search of [re]: alternatives left to right, greedy or lazy repetition,
      leftmost match, non-overlapping scan for [findall] and [sub].
    - [confidence] is a Python float.  Only the literals 0.0, 0.5, 0.2, 0.9
      and the expression [0.5 + n * 0.2] occur; the model computes them as
      exact rationals, where binary64 rounds [0.5 + 0.2] and [0.5 + 0.4] to
      the doubles written 0.7 and 0.9.
    - Exceptions, the processor's mutable fields and the clock are threaded
      through a small state-and-exception monad. *)

From Stdlib Require Import Ascii String.
From Stdlib Require Import List Bool Arith NArith ZArith Lia Sorted.
From Stdlib Require Import QArith Qminmax DecimalString.
Import ListNotations.

Set Implicit Arguments.
Close Scope Q_scope.
Close Scope Z_scope.
Open Scope nat_scope.
Open Scope list_scope.

(** ** Text: Python [str] on code points below 256 *)

Module Text.

Definition str := list ascii.

(** A literal of the source, written as a Rocq string. *)
Definition py (s : string) : str := list_ascii_of_string s.

Definition code (c : ascii) : N := N_of_ascii c.

Definition in_range (lo hi : N) (c : ascii) : bool :=
  ((lo <=? code c) && (code c <=? hi))%N.

(** [str.isspace] on one character: TAB..CR, FS..US, SPACE, NEL, NBSP. *)
Definition isspace (c : ascii) : bool :=
  in_range 9 13 c || in_range 28 32 c || in_range 133 133 c || in_range 160 160 c.

(** [str.isalnum] on one character (alphabetic, decimal, digit or numeric). *)
Definition isalnum (c : ascii) : bool :=
  in_range 48 57 c || in_range 65 90 c || in_range 97 122 c
  || in_range 170 170 c || in_range 178 179 c || in_range 181 181 c
  || in_range 185 186 c || in_range 188 190 c
  || in_range 192 214 c || in_range 216 246 c || in_range 248 255 c.

(** The class [\w] of a str pattern: alphanumeric or underscore. *)
Definition isword (c : ascii) : bool := isalnum c || in_range 95 95 c.

(** [str.lower] on one character: A..Z and the capital letters U+00C0..U+00DE
    (but not the sign U+00D7) move up by 32. *)
Definition lower_char (c : ascii) : ascii :=
  if in_range 65 90 c || (in_range 192 222 c && negb (in_range 215 215 c))
  then ascii_of_N (code c + 32) else c.

Definition lower (s : str) : str := map lower_char s.

Fixpoint lstrip (s : str) : str :=
  match s with
  | [] => []
  | c :: s' => if isspace c then lstrip s' else s
  end.

Definition rstrip (s : str) : str := rev (lstrip (rev s)).

(** [str.strip()] with no argument. *)
Definition strip (s : str) : str := rstrip (lstrip s).

Definition str_eqb (a b : str) : bool :=
  if list_eq_dec ascii_dec a b then true else false.

(** [x in xs] for a set or list of strings. *)
Definition str_in (x : str) (xs : list str) : bool := existsb (str_eqb x) xs.

(** [str(n)] for a non-negative int. *)
Definition str_of_nat (n : nat) : str := py (NilEmpty.string_of_uint (Nat.to_uint n)).

End Text.

Import Text.

(** ** Re: the fragment of Python's [re] used by the source *)

Module Re.

(** What one pattern position accepts. *)
Inductive cset : Type :=
| CAny                       (* .        any character but newline *)
| CLit (c : ascii)           (* a literal character *)
| CSpace                     (* \s *)
| CWord                      (* \w *)
| COneOf (l : list ascii).   (* [...] *)

Inductive regex : Type :=
| Eps
| Chr (cs : cset)
| Bnd                                  (* \b *)
| Seq (r1 r2 : regex)
| Alt (r1 r2 : regex)                  (* r1|r2 *)
| Star (greedy : bool) (cs : cset).    (* cs* and cs*? *)

(** Flags: only [re.IGNORECASE] occurs. *)
Definition flags := bool.
Definition IGNORECASE : flags := true.
Definition NOFLAG : flags := false.

Definition ascii_in (c : ascii) (l : list ascii) : bool := existsb (Ascii.eqb c) l.

Definition newline : ascii := ascii_of_N 10.

Definition lit_match (ic : flags) (p c : ascii) : bool :=
  if ic then Ascii.eqb (lower_char c) (lower_char p) else Ascii.eqb c p.

Definition cset_in (ic : flags) (cs : cset) (c : ascii) : bool :=
  match cs with
  | CAny => negb (Ascii.eqb c newline)
  | CLit p => lit_match ic p c
  | CSpace => isspace c
  | CWord => isword c
  | COneOf l => existsb (fun p => lit_match ic p c) l
  end.

Definition opt_word (o : option ascii) : bool :=
  match o with Some c => isword c | None => false end.

(** [\b] between the character before the position and the text after it. *)
Definition at_boundary (prev : option ascii) (s : str) : bool :=
  xorb (opt_word prev) (opt_word (hd_error s)).

Section Matcher.

Variable ic : flags.
Variable A : Type.

(** Repetition of one character class, with the rest of the pattern as the
    continuation [k]: greedy takes a character first and falls back to [k],
    lazy tries [k] first. *)
Fixpoint star (greedy : bool) (cs : cset) (prev : option ascii) (s : str)
  (k : option ascii -> str -> option A) : option A :=
  match s with
  | [] => k prev s
  | c :: s' =>
      if cset_in ic cs c then
        if greedy then
          match star greedy cs (Some c) s' k with
          | Some x => Some x
          | None => k prev s
          end
        else
          match k prev s with
          | Some x => Some x
          | None => star greedy cs (Some c) s' k
          end
      else k prev s
  end.

(** [mtch r prev s k]: match [r] at the head of [s], where [prev] is the
    character just before; on success continue with [k] on what is left. The
    first success in backtracking order is returned. *)
Fixpoint mtch (r : regex) (prev : option ascii) (s : str)
  (k : option ascii -> str -> option A) : option A :=
  match r with
  | Eps => k prev s
  | Chr cs =>
      match s with
      | c :: s' => if cset_in ic cs c then k (Some c) s' else None
      | [] => None
      end
  | Bnd => if at_boundary prev s then k prev s else None
  | Seq r1 r2 => mtch r1 prev s (fun p' s' => mtch r2 p' s' k)
  | Alt r1 r2 =>
      match mtch r1 prev s k with
      | Some x => Some x
      | None => mtch r2 prev s k
      end
  | Star greedy cs => star greedy cs prev s k
  end.

End Matcher.

(** The match of [r] at the head of [s], as the text left after it. *)
Definition match_here (ic : flags) (r : regex) (prev : option ascii) (s : str)
  : option str :=
  mtch ic r prev s (fun _ rest => Some rest).

(** Scan for the leftmost position where [r] matches. *)
Fixpoint search_from (ic : flags) (r : regex) (prev : option ascii) (s : str)
  : bool :=
  match match_here ic r prev s with
  | Some _ => true
  | None =>
      match s with
      | [] => false
      | c :: s' => search_from ic r (Some c) s'
      end
  end.

(** [re.search(r, s, flags)] used as a truth value. *)
Definition search (r : regex) (s : str) (ic : flags) : bool :=
  search_from ic r None s.

(** [findall_from ic r prev s skip]: the matches in [s], where the first
    [skip] characters still belong to the previous match.  An empty match
    advances by one character (no pattern of the source matches the empty
    string). *)
Fixpoint findall_from (ic : flags) (r : regex) (prev : option ascii) (s : str)
  (skip : nat) : list str :=
  match skip with
  | S n =>
      match s with
      | [] => []
      | c :: s' => findall_from ic r (Some c) s' n
      end
  | O =>
      match match_here ic r prev s with
      | Some rest =>
          let len := length s - length rest in
          firstn len s ::
          match s with
          | [] => []
          | c :: s' => findall_from ic r (Some c) s' (pred len)
          end
      | None =>
          match s with
          | [] => []
          | c :: s' => findall_from ic r (Some c) s' 0
          end
      end
  end.

(** [re.findall(r, s, flags)]: the non-overlapping matches, left to right.
    (With one group around the alternation and only [\b] outside it, the
    group's text is the text of the match.) *)
Definition findall (r : regex) (s : str) (ic : flags) : list str :=
  findall_from ic r None s 0.

Fixpoint sub_from (ic : flags) (r : regex) (repl : str) (prev : option ascii)
  (s : str) (skip : nat) : str :=
  match skip with
  | S n =>
      match s with
      | [] => []
      | c :: s' => sub_from ic r repl (Some c) s' n
      end
  | O =>
      match match_here ic r prev s with
      | Some rest =>
          let len := length s - length rest in
          repl ++
          match s with
          | [] => []
          | c :: s' =>
              match len with
              | O => c :: sub_from ic r repl (Some c) s' 0
              | S n => sub_from ic r repl (Some c) s' n
              end
          end
      | None =>
          match s with
          | [] => []
          | c :: s' => c :: sub_from ic r repl (Some c) s' 0
          end
      end
  end.

(** [re.sub(r, repl, s)] with a plain replacement string. *)
Definition sub (r : regex) (repl : str) (s : str) : str :=
  sub_from NOFLAG r repl None s 0.

(** Pattern syntax. *)

(** A run of literal characters. *)
Fixpoint Lit_chars (l : list ascii) : regex :=
  match l with
  | [] => Eps
  | [c] => Chr (CLit c)
  | c :: l' => Seq (Chr (CLit c)) (Lit_chars l')
  end.

Definition Lit (s : string) : regex := Lit_chars (py s).

(** r1 r2 ... rn *)
Fixpoint Cat (l : list regex) : regex :=
  match l with
  | [] => Eps
  | [r] => r
  | r :: l' => Seq r (Cat l')
  end.

(** (r1|r2|...|rn) *)
Fixpoint Alts (l : list regex) : regex :=
  match l with
  | [] => Eps
  | [r] => r
  | r :: l' => Alt r (Alts l')
  end.

(** cs+ *)
Definition Plus (cs : cset) : regex := Seq (Chr cs) (Star true cs).

(** .* and .*? *)
Definition DotStar : regex := Star true CAny.
Definition DotStarLazy : regex := Star false CAny.

(** \b(w1|...|wn)\b : the shape of every table of the analyzer. *)
Definition Words (l : list regex) : regex := Cat [Bnd; Alts l; Bnd].

(** a.*b *)
Definition Gap (a b : string) : regex := Cat [Lit a; DotStar; Lit b].

End Re.

Import Re.

(** ** agent_manager.py: what the pipeline sees of its collaborator *)

Module Agent.

Record AgentResponse : Type := {
  content : str;
  confidence : Q;
  sources_used : list str;
  slang_explained : list (str * str)
}.

(** A raised instance of [Exception], with its [str()]. *)
Inductive PyException : Type :=
| Exception (message : str).

Definition str_of_exception (e : PyException) : str :=
  match e with Exception m => m end.

(** [BangaloreLocalAgent]: response templating, outside the pipeline.  The
    object is represented by its method [process_query] on the query text,
    which returns a response or raises. *)
Record BangaloreLocalAgent : Type := {
  process_query : str -> PyException + AgentResponse
}.

Record AgentManager : Type := {
  agent : option BangaloreLocalAgent
}.

(** [AgentManager()] *)
Definition new_AgentManager : AgentManager := {| agent := None |}.

End Agent.

(** ** query_processor.py *)

Inductive QueryType : Type :=
| FOOD | TRAFFIC | SLANG | ITINERARY | CULTURE | GENERAL | INVALID.

Definition QueryType_eqb (a b : QueryType) : bool :=
  match a, b with
  | FOOD, FOOD | TRAFFIC, TRAFFIC | SLANG, SLANG | ITINERARY, ITINERARY
  | CULTURE, CULTURE | GENERAL, GENERAL | INVALID, INVALID => true
  | _, _ => false
  end.

Record ProcessedQuery : Type := {
  original_text : str;
  cleaned_text : str;
  query_type : QueryType;
  keywords : list str;
  time_context : option str;
  location_context : option str;
  confidence : Q;
  is_valid : bool
}.

Record QueryProcessingResult : Type := {
  processed_query : ProcessedQuery;
  agent_response : option Agent.AgentResponse;
  processing_time_ms : Q;
  success : bool;
  error_message : option str
}.

(** *** class QueryValidator *)

Definition min_length : nat := 2.
Definition max_length : nat := 500.

Definition forbidden_patterns : list regex :=
  [ Cat [Lit "<script"; DotStarLazy; Lit ">"; DotStarLazy; Lit "</script>"];
    Lit "javascript:";
    Lit "data:";
    Lit "vbscript:" ].

Definition _clean_query (query_text : str) : str :=
  let cleaned := Re.sub (Plus CSpace) (py " ") (strip query_text) in
  let cleaned := Re.sub (Chr (COneOf (py "<>{}"))) (py "") cleaned in
  cleaned.

(** Returns (is_valid, cleaned_text, error_message). *)
Definition validate_query (query_text : str) : bool * str * str :=
  match query_text with
  | [] => (false, py "", py "Query cannot be empty")
  | _ =>
    if length (strip query_text) <? min_length then
      (false, py "",
       py "Query too short (minimum " ++ str_of_nat min_length ++ py " characters)")
    else if max_length <? length query_text then
      (false, py "",
       py "Query too long (maximum " ++ str_of_nat max_length ++ py " characters)")
    else
      let query_lower := lower query_text in
      if existsb (fun pattern => Re.search pattern query_lower IGNORECASE)
           forbidden_patterns
      then (false, py "", py "Query contains invalid content")
      else (true, _clean_query query_text, py "")
  end.

(** *** class QueryAnalyzer *)

Definition query_patterns : list (QueryType * list regex) :=
  [ (FOOD,
     [ Words (map Lit ["food"; "eat"; "breakfast"; "lunch"; "dinner"; "restaurant";
                       "cafe"; "dosa"; "idli"; "meal"; "hungry"; "taste"]%string);
       Words [Gap "where" "eat"; Gap "what" "eat"; Gap "food" "recommend";
              Gap "restaurant" "suggest"];
       Words (map Lit ["malleshwaram"; "basavanagudi"; "vv puram";
                       "street food"]%string) ]);
    (TRAFFIC,
     [ Words (map Lit ["traffic"; "road"; "drive"; "metro"; "transport"; "travel";
                       "commute"; "bus"; "auto"]%string);
       Words (map Lit ["silk board"; "electronic city"; "outer ring"; "whitefield";
                       "hebbal"]%string);
       Words [Gap "how" "reach"; Gap "traffic" "bad"; Gap "metro" "better";
              Gap "avoid" "traffic"] ]);
    (SLANG,
     [ Words [Lit "slang"; Lit "mean"; Lit "meaning"; Gap "what" "mean";
              Lit "explain"; Lit "guru"; Lit "machcha"; Lit "sakkath";
              Lit "scene illa"];
       Words [Gap "what" "guru"; Gap "what" "machcha"; Gap "what" "sakkath";
              Lit "scene illa maga"] ]);
    (ITINERARY,
     [ Words (map Lit ["itinerary"; "plan"; "day"; "visit"; "places"; "tour";
                       "trip"; "schedule"]%string);
       Words [Lit "one day"; Lit "full day"; Gap "places" "visit";
              Gap "what" "see"; Gap "plan" "day"] ]);
    (CULTURE,
     [ Words (map Lit ["culture"; "custom"; "tradition"; "etiquette"; "behavior";
                       "respect"; "temple"]%string);
       Words [Gap "cultural" "norm"; Gap "how" "behave"; Gap "what" "expect";
              Gap "local" "custom"] ]) ].

Definition morning_pattern : regex :=
  Words (map Lit ["morning"; "breakfast"; "6am"; "7am"; "8am"; "9am"; "early"]%string).

Definition afternoon_pattern : regex :=
  Words (map Lit ["afternoon"; "lunch"; "12pm"; "1pm"; "2pm"; "3pm"; "noon"]%string).

Definition evening_pattern : regex :=
  Words (map Lit ["evening"; "dinner"; "6pm"; "7pm"; "8pm"; "9pm"; "night"]%string).

Definition time_patterns : list (str * regex) :=
  [ (py "morning", morning_pattern);
    (py "afternoon", afternoon_pattern);
    (py "evening", evening_pattern) ].

Definition location_patterns : list (str * regex) :=
  [ (py "malleshwaram", Words [Lit "malleshwaram"]);
    (py "basavanagudi", Words [Lit "basavanagudi"]);
    (py "koramangala", Words [Lit "koramangala"]);
    (py "indiranagar", Words [Lit "indiranagar"]);
    (py "whitefield", Words [Lit "whitefield"]);
    (py "electronic_city", Words [Lit "electronic city"]);
    (py "silk_board", Words [Lit "silk board"]) ].

(** A dict keyed by [QueryType], in insertion order. *)
Definition dict := list (QueryType * nat).

Fixpoint dict_set (d : dict) (k : QueryType) (v : nat) : dict :=
  match d with
  | [] => [(k, v)]
  | (k', v') :: d' =>
      if QueryType_eqb k' k then (k, v) :: d' else (k', v') :: dict_set d' k v
  end.

Fixpoint dict_get (d : dict) (k : QueryType) : option nat :=
  match d with
  | [] => None
  | (k', v') :: d' => if QueryType_eqb k' k then Some v' else dict_get d' k
  end.

Definition dict_keys (d : dict) : list QueryType := map fst d.

(** The value under a key that is present (the source reads only keys taken
    from the dict itself). *)
Definition dict_at (d : dict) (k : QueryType) : nat :=
  match dict_get d k with Some v => v | None => 0 end.

(** [max(x :: l, key=key)]: the first element whose key is maximal. *)
Fixpoint py_max (A : Type) (key : A -> nat) (x : A) (l : list A) : A :=
  match l with
  | [] => x
  | y :: l' => if key x <? key y then py_max key y l' else py_max key x l'
  end.

(** The inner loop of [_determine_query_type]: the matches of every pattern
    of one table, added up. *)
Definition pattern_score (patterns : list regex) (query_lower : str) : nat :=
  fold_left
    (fun score pattern => score + length (Re.findall pattern query_lower IGNORECASE))
    patterns 0.

Definition _determine_query_type (query_lower : str) : QueryType * Q :=
  let type_scores :=
    fold_left
      (fun (type_scores : dict) (entry : QueryType * list regex) =>
         let (query_type, patterns) := entry in
         let score := pattern_score patterns query_lower in
         if 0 <? score then dict_set type_scores query_type score else type_scores)
      query_patterns [] in
  match dict_keys type_scores with
  | [] => (GENERAL, 0.5%Q)
  | k :: ks =>
      let best_type := py_max (dict_at type_scores) k ks in
      let max_score := dict_at type_scores best_type in
      let confidence := Qmin 0.9 (0.5 + inject_Z (Z.of_nat max_score) * 0.2)%Q in
      (best_type, confidence)
  end.

Definition stop_words : list str :=
  map py ["the"; "is"; "at"; "which"; "on"; "a"; "an"; "and"; "or"; "but"; "in";
          "with"; "to"; "for"; "of"; "as"; "by"]%string.

Definition _extract_keywords (query_lower : str) : list str :=
  let words := Re.findall (Cat [Bnd; Plus CWord; Bnd]) query_lower NOFLAG in
  let keywords :=
    filter (fun word => negb (str_in word stop_words) && (2 <? length word)) words in
  firstn 10 keywords.

(** [for name, pattern in table.items(): if re.search(...): return name]
    and [return None] after the loop. *)
Fixpoint first_match (table : list (str * regex)) (query_lower : str) : option str :=
  match table with
  | [] => None
  | (name, pattern) :: rest =>
      if Re.search pattern query_lower IGNORECASE then Some name
      else first_match rest query_lower
  end.

Definition _extract_time_context (query_lower : str) : option str :=
  first_match time_patterns query_lower.

Definition _extract_location_context (query_lower : str) : option str :=
  first_match location_patterns query_lower.

Definition analyze_query (query_text : str) : ProcessedQuery :=
  let query_lower := lower query_text in
  let (query_type, confidence) := _determine_query_type query_lower in
  let keywords := _extract_keywords query_lower in
  let time_context := _extract_time_context query_lower in
  let location_context := _extract_location_context query_lower in
  let is_valid :=
    negb (QueryType_eqb query_type INVALID) && negb (Qle_bool confidence 0.3) in
  {| original_text := query_text;
     cleaned_text := query_text;
     query_type := query_type;
     keywords := keywords;
     time_context := time_context;
     location_context := location_context;
     confidence := confidence;
     is_valid := is_valid |}.

(** *** class QueryProcessor *)

Record QueryProcessor : Type := {
  agent_manager : Agent.AgentManager;
  _agent_initialized : bool
}.

(** [QueryProcessor(agent_manager)]: [agent_manager or AgentManager()]. *)
Definition new_QueryProcessor (agent_manager : option Agent.AgentManager)
  : QueryProcessor :=
  {| agent_manager :=
       match agent_manager with Some m => m | None => Agent.new_AgentManager end;
     _agent_initialized := false |}.

(** What a call finds outside the program: the files read by
    [initialize_agent] (as the agent they yield, or the exception raised
    while loading them) and the readings of [datetime.now()] that
    [process_query] takes itself, in microseconds.  The agent manager reads
    the clock too (session id, query timestamp, cache time); those readings
    reach no field of the result and are not part of [clock]. *)
Record World : Type := {
  load_agent : Agent.PyException + Agent.BangaloreLocalAgent;
  clock : nat -> Z
}.

(** The mutable state of a run: the processor object and the number of clock
    readings [process_query] has taken so far. *)
Record Machine : Type := {
  self : QueryProcessor;
  ticks : nat
}.

(** How a statement ends: with a value, or with a raised exception. *)
Inductive Outcome (A : Type) : Type :=
| Return (a : A)
| Raise (e : Agent.PyException).

Arguments Return {A} a.
Arguments Raise {A} e.

(** Computations that read the world, update the machine and may raise.
    The state reached when an exception is raised is kept, as in Python. *)
Definition M (A : Type) : Type := World -> Machine -> Outcome A * Machine.

Definition ret (A : Type) (a : A) : M A := fun _ m => (Return a, m).

Definition bind (A B : Type) (c : M A) (f : A -> M B) : M B :=
  fun w m =>
    match c w m with
    | (Return a, m') => f a w m'
    | (Raise e, m') => (Raise e, m')
    end.

Definition raise (A : Type) (e : Agent.PyException) : M A := fun _ m => (Raise e, m).

Arguments raise {A} e.

(** [try: body  except Exception as e: handler e] *)
Definition try_except (A : Type) (body : M A) (handler : Agent.PyException -> M A)
  : M A :=
  fun w m =>
    match body w m with
    | (Return a, m') => (Return a, m')
    | (Raise e, m') => handler e w m'
    end.

Declare Scope monad_scope.
Delimit Scope monad_scope with monad.
Notation "x <- c ;; k" := (bind c (fun x => k))
  (at level 61, c at next level, right associativity) : monad_scope.
Notation "c ;; k" := (bind c (fun _ => k))
  (at level 61, right associativity) : monad_scope.
Open Scope monad_scope.

(** [datetime.now()] *)
Definition datetime_now : M Z :=
  fun w m => (Return (clock w (ticks m)), {| self := self m; ticks := S (ticks m) |}).

Definition get_self : M QueryProcessor := fun _ m => (Return (self m), m).

Definition set_self (p : QueryProcessor) : M unit :=
  fun _ m => (Return tt, {| self := p; ticks := ticks m |}).

(** [AgentManager.initialize_agent], called on [self.agent_manager]: loads
    configuration and context, raising what loading raises, and stores the
    agent. *)
Definition initialize_agent : M unit :=
  fun w m =>
    match load_agent w with
    | inl e => (Raise e, m)
    | inr a =>
        (Return tt,
         {| self := {| agent_manager := {| Agent.agent := Some a |};
                       _agent_initialized := _agent_initialized (self m) |};
            ticks := ticks m |})
    end.

(** [AgentManager.process_user_query] *)
Definition process_user_query (query_text : str) : M Agent.AgentResponse :=
  p <- get_self ;;
  match Agent.agent (agent_manager p) with
  | None =>
      raise (Agent.Exception
               (py "Agent not initialized. Call initialize_agent() first."))
  | Some a =>
      match Agent.process_query a query_text with
      | inl e => raise e
      | inr response => ret response
      end
  end.

(** The elapsed time as the exact quotient; the source computes
    [total_seconds() * 1000] in floating point, which may round it. *)
Definition _get_elapsed_ms (start_time : Z) : M Q :=
  now <- datetime_now ;;
  ret (inject_Z (now - start_time) / 1000)%Q.

(** The [ProcessedQuery] built on both failure paths. *)
Definition invalid_query (query_text cleaned_text : str) : ProcessedQuery :=
  {| original_text := query_text;
     cleaned_text := cleaned_text;
     query_type := INVALID;
     keywords := [];
     time_context := None;
     location_context := None;
     confidence := 0.0%Q;
     is_valid := false |}.

(** The [try] block of [process_query], entered at [start_time].  The
    validator and the analyzer raise nothing on a str, so their results are
    taken as arguments: only the calls into the agent manager can raise. *)
Definition process_query_try (query_text : str) (start_time : Z)
  (valid : bool) (cleaned_text error_msg : str) : M QueryProcessingResult :=
  if negb valid then
    elapsed <- _get_elapsed_ms start_time ;;
    ret {| processed_query := invalid_query query_text (py "");
           agent_response := None;
           processing_time_ms := elapsed;
           success := false;
           error_message := Some error_msg |}
  else
    let processed_query := analyze_query cleaned_text in
    if negb (is_valid processed_query) then
      elapsed <- _get_elapsed_ms start_time ;;
      ret {| processed_query := processed_query;
             agent_response := None;
             processing_time_ms := elapsed;
             success := false;
             error_message := Some (py "Query could not be understood") |}
    else
      p <- get_self ;;
      (if negb (_agent_initialized p) then
         initialize_agent ;;
         p' <- get_self ;;
         set_self {| agent_manager := agent_manager p';
                     _agent_initialized := true |}
       else ret tt) ;;
      agent_response <- process_user_query cleaned_text ;;
      elapsed <- _get_elapsed_ms start_time ;;
      ret {| processed_query := processed_query;
             agent_response := Some agent_response;
             processing_time_ms := elapsed;
             success := true;
             error_message := None |}.

(** The [except Exception as e] block.  When it runs, [cleaned_text] is
    among the locals; logging is left out. *)
Definition process_query_except (query_text : str) (start_time : Z)
  (cleaned_text : str) (e : Agent.PyException) : M QueryProcessingResult :=
  elapsed <- _get_elapsed_ms start_time ;;
  ret {| processed_query := invalid_query query_text cleaned_text;
         agent_response := None;
         processing_time_ms := elapsed;
         success := false;
         error_message :=
           Some (py "Processing error: " ++ Agent.str_of_exception e) |}.

Definition process_query (query_text : str) : M QueryProcessingResult :=
  start_time <- datetime_now ;;
  let '(valid, cleaned_text, error_msg) := validate_query query_text in
  try_except
    (process_query_try query_text start_time valid cleaned_text error_msg)
    (process_query_except query_text start_time cleaned_text).

(** [process_user_query(query_text)] at module level: a fresh processor for
    each call. *)
Definition process_user_query_fresh (query_text : str) : M QueryProcessingResult :=
  set_self (new_QueryProcessor None) ;;
  process_query query_text.

(** The result of a run, and the machine it leaves. *)
Definition run (A : Type) (c : M A) (w : World) (m : Machine) : Outcome A * Machine :=
  c w m.

(** ** Notions used in the statements *)

(** Every run of whitespace replaced by one space; [in_run] tells that the
    previous character was whitespace. *)
Fixpoint squeeze (in_run : bool) (s : str) : str :=
  match s with
  | [] => []
  | c :: s' =>
      if isspace c then
        if in_run then squeeze true s' else " "%char :: squeeze true s'
      else c :: squeeze false s'
  end.

(** The characters [_clean_query] deletes. *)
Definition harmful (c : ascii) : bool := ascii_in c (py "<>{}").

(** The number of leading whitespace characters. *)
Definition lead (s : str) : nat := length s - length (lstrip s).

(** The character before the position reached after reading [s]. *)
Definition last_char (prev : option ascii) (s : str) : option ascii :=
  fold_left (fun _ c => Some c) s prev.

(** The intents that have a pattern table, in the order of the table. *)
Definition intents : list QueryType := map fst query_patterns.

(** The total match count of one intent's table on a text. *)
Definition intent_score (qt : QueryType) (query_lower : str) : nat :=
  match find (fun e => QueryType_eqb (fst e) qt) query_patterns with
  | Some (_, patterns) => pattern_score patterns query_lower
  | None => 0
  end.

(** The priority order Food > Traffic > Slang > Itinerary > Culture, as a
    position: a smaller rank wins a tie. *)
Definition rank (qt : QueryType) : nat :=
  match qt with
  | FOOD => 0 | TRAFFIC => 1 | SLANG => 2 | ITINERARY => 3 | CULTURE => 4
  | GENERAL => 5 | INVALID => 6
  end.

(** A text neither starting nor ending with whitespace. *)
Definition trimmed (s : str) : Prop :=
  lstrip s = s /\ lstrip (rev s) = rev s.

(** The three results [process_query] can return, up to the elapsed time. *)

Definition rejected (query_text error_msg : str) (elapsed : Q)
  : QueryProcessingResult :=
  {| processed_query := invalid_query query_text (py "");
     agent_response := None;
     processing_time_ms := elapsed;
     success := false;
     error_message := Some error_msg |}.

Definition faulted (query_text cleaned_text : str) (e : Agent.PyException)
  (elapsed : Q) : QueryProcessingResult :=
  {| processed_query := invalid_query query_text cleaned_text;
     agent_response := None;
     processing_time_ms := elapsed;
     success := false;
     error_message := Some (py "Processing error: " ++ Agent.str_of_exception e) |}.

Definition answered (cleaned_text : str) (response : Agent.AgentResponse)
  (elapsed : Q) : QueryProcessingResult :=
  {| processed_query := analyze_query cleaned_text;
     agent_response := Some response;
     processing_time_ms := elapsed;
     success := true;
     error_message := None |}.

Definition not_initialized : Agent.PyException :=
  Agent.Exception (py "Agent not initialized. Call initialize_agent() first.").

(** What the agent does with an accepted query: which processor is left
    behind, and the response or the exception. *)
Definition consult (w : World) (p : QueryProcessor) (cleaned_text : str)
  : QueryProcessor * (Agent.PyException + Agent.AgentResponse) :=
  if _agent_initialized p then
    match Agent.agent (agent_manager p) with
    | None => (p, inl not_initialized)
    | Some a => (p, Agent.process_query a cleaned_text)
    end
  else
    match load_agent w with
    | inl e => (p, inl e)
    | inr a =>
        ({| agent_manager := {| Agent.agent := Some a |};
            _agent_initialized := true |},
         Agent.process_query a cleaned_text)
    end.

(** The elapsed time measured by a call entered at clock reading [n]. *)
Definition elapsed_at (w : World) (n : nat) : Q :=
  (inject_Z (clock w (S n) - clock w n) / 1000)%Q.

(** A result without its elapsed time. *)
Definition timeless (r : QueryProcessingResult)
  : ProcessedQuery * option Agent.AgentResponse * bool * option str :=
  (processed_query r, agent_response r, success r, error_message r).



(** A world for examples: the knowledge file is missing, so loading the
    agent raises; the clock advances by 250 microseconds per reading. *)
Definition world_without_files : World :=
  {| load_agent :=
       inl (Agent.Exception (py "Product knowledge file not found: product.md"));
     clock := fun n => (250 * Z.of_nat n)%Z |}.

(** A machine holding a new [QueryProcessor()]. *)
Definition fresh_machine : Machine :=
  {| self := new_QueryProcessor None; ticks := 0 |}.


(** ** query_processor.py, module level *)

(** [get_simple_response]: the response text, or [error_message or "Sorry,
    ..."], where [or] skips [None] and the empty string. *)
Definition get_simple_response (query_text : str) : M str :=
  result <- process_user_query_fresh query_text ;;
  ret (match success result, agent_response result with
       | true, Some response => Agent.content response
       | _, _ =>
           match error_message result with
           | Some (c :: message) => c :: message
           | _ => py "Sorry, I couldn't process your query."
           end
       end).

(** ** Further notions used in the statements *)

(** No two whitespace characters in a row. *)
Fixpoint single_spaced (s : str) : bool :=
  match s with
  | c :: s' =>
      match s' with
      | d :: _ => negb (isspace c && isspace d) && single_spaced s'
      | [] => true
      end
  | [] => true
  end.

(** The substrings of the deny list that are plain text. *)
Definition denied_substrings : list str :=
  map py ["javascript:"; "data:"; "vbscript:"]%string.

(** The reasons [validate_query] gives for a rejection. *)
Definition rejection_reasons : list str :=
  map py ["Query cannot be empty";
          "Query too short (minimum 2 characters)";
          "Query too long (maximum 500 characters)";
          "Query contains invalid content"]%string.

(** A processor whose flag does not run ahead of its agent manager. *)
Definition agent_ready (p : QueryProcessor) : Prop :=
  _agent_initialized p = true -> Agent.agent (agent_manager p) <> None.

(** [k] occurs in [s] as a contiguous piece. *)
Definition piece_of (k s : str) : Prop := exists pre post, s = pre ++ k ++ post.

(** The gazetteer: each key of [location_patterns] with the phrase its
    pattern looks for. *)
Definition location_phrases : list (str * str) :=
  [ (py "malleshwaram", py "malleshwaram");
    (py "basavanagudi", py "basavanagudi");
    (py "koramangala", py "koramangala");
    (py "indiranagar", py "indiranagar");
    (py "whitefield", py "whitefield");
    (py "electronic_city", py "electronic city");
    (py "silk_board", py "silk board") ].

(** The confidence that goes with a winning match count. *)
Definition confidence_level (n : nat) : Q :=
  match n with
  | O => 0.5%Q
  | S O => 0.7%Q
  | S (S _) => 0.9%Q
  end.

(** An agent for examples: it answers every query with the query itself. *)
Definition echo_agent : Agent.BangaloreLocalAgent :=
  {| Agent.process_query := fun query_text =>
       inr {| Agent.content := query_text;
              Agent.confidence := 0.9%Q;
              Agent.sources_used := [py "product.md"];
              Agent.slang_explained := [] |} |}.

(** A machine whose processor has been initialized with [echo_agent]. *)
Definition echo_machine : Machine :=
  {| self := {| agent_manager := {| Agent.agent := Some echo_agent |};
                _agent_initialized := true |};
     ticks := 0 |}.

(** ** agent_manager.py: the agent's own classification *)

Module LocalAgent.

(** [s.startswith(prefix)] *)
Fixpoint startswith (s prefix : str) {struct prefix} : bool :=
  match prefix with
  | [] => true
  | p :: prefix' =>
      match s with
      | [] => false
      | c :: s' => Ascii.eqb c p && startswith s' prefix'
      end
  end.

(** [needle in haystack] for two strings. *)
Fixpoint contains (needle haystack : str) : bool :=
  startswith haystack needle ||
  match haystack with
  | [] => false
  | _ :: haystack' => contains needle haystack'
  end.

(** [any(word in query_lower for word in words)] *)
Definition any_in (words : list str) (query_lower : str) : bool :=
  existsb (fun word => contains word query_lower) words.

Definition food_words : list str :=
  map py ["food"; "eat"; "breakfast"; "lunch"; "dinner"; "restaurant"]%string.

Definition traffic_words : list str :=
  map py ["traffic"; "travel"; "metro"; "transport"; "road"]%string.

Definition slang_words : list str :=
  map py ["slang"; "mean"; "meaning"; "scene illa"; "guru"; "machcha"]%string.

Definition itinerary_words : list str :=
  map py ["itinerary"; "plan"; "day"; "visit"; "places"]%string.

Definition culture_words : list str :=
  map py ["culture"; "etiquette"; "custom"; "tradition"]%string.

(** [BangaloreLocalAgent._analyze_query_type] *)
Definition _analyze_query_type (query_lower : str) : str :=
  if any_in food_words query_lower then py "food"
  else if any_in traffic_words query_lower then py "traffic"
  else if any_in slang_words query_lower then py "slang"
  else if any_in itinerary_words query_lower then py "itinerary"
  else if any_in culture_words query_lower then py "culture"
  else py "general".

(** The categories in the order of the [if]/[elif] chain. *)
Definition categories : list (str * list str) :=
  [ (py "food", food_words); (py "traffic", traffic_words);
    (py "slang", slang_words); (py "itinerary", itinerary_words);
    (py "culture", culture_words) ].

End LocalAgent.

(** The [if]/[elif] chain of the agent's classifier, over a table. *)
Fixpoint first_category (table : list (str * list str)) (query_lower : str) : str :=
  match table with
  | [] => py "general"
  | (category, words) :: rest =>
      if LocalAgent.any_in words query_lower then category
      else first_category rest query_lower
  end.

(** ** context_manager.py: the sections of the knowledge document *)

Module ContextManager.

(** [s.split('\n')] *)
Fixpoint split_lines (s : str) : list str :=
  match s with
  | [] => [[]]
  | c :: s' =>
      if Ascii.eqb c newline then [] :: split_lines s'
      else
        match split_lines s' with
        | line :: lines => (c :: line) :: lines
        | [] => [[c]]
        end
  end.

(** ['\n'.join(lines)] *)
Fixpoint join_lines (lines : list str) : str :=
  match lines with
  | [] => []
  | line :: lines' =>
      match lines' with
      | [] => line
      | _ :: _ => line ++ newline :: join_lines lines'
      end
  end.

(** A dict keyed by strings, in insertion order. *)
Definition sections_dict := list (str * str).

Fixpoint sections_set (d : sections_dict) (k v : str) : sections_dict :=
  match d with
  | [] => [(k, v)]
  | (k', v') :: d' =>
      if str_eqb k' k then (k, v) :: d' else (k', v') :: sections_set d' k v
  end.

Record LocalContext : Type := {
  content : str;
  source_file : str;
  last_updated : Z
}.

(** The locals of the loop of [get_sections]. *)
Record Locals : Type := {
  sections : sections_dict;
  current_section : option str;
  current_content : list str
}.

(** [if current_section: sections[current_section] = '\n'.join(current_content)]:
    [None] and the empty string count as false. *)
Definition store_current (l : Locals) : sections_dict :=
  match current_section l with
  | Some (c :: name) => sections_set (sections l) (c :: name) (join_lines (current_content l))
  | _ => sections l
  end.

(** The body of [for line in self.content.split('\n')]. *)
Definition section_step (l : Locals) (line : str) : Locals :=
  if LocalAgent.startswith line (py "## ") then
    {| sections := store_current l;
       current_section := Some (strip (skipn 3 line));
       current_content := [] |}
  else
    {| sections := sections l;
       current_section := current_section l;
       current_content := current_content l ++ [line] |}.

(** [LocalContext.get_sections] *)
Definition get_sections (self : LocalContext) : sections_dict :=
  let start := {| sections := []; current_section := None; current_content := [] |} in
  store_current (fold_left section_step (split_lines (content self)) start).

End ContextManager.

(** A document written section by section: the lines of a preamble, then
    for every section a heading line and the lines of its body. *)
Definition section_lines (doc : list (str * list str)) : list str :=
  concat (map (fun e => (py "## " ++ fst e) :: snd e) doc).

Definition render_document (preamble : list str) (doc : list (str * list str)) : str :=
  ContextManager.join_lines (preamble ++ section_lines doc).

(** A line that can stand in a body: no newline in it, and not a heading. *)
Definition body_line (line : str) : Prop :=
  Forall (fun c => c <> newline) line /\
  LocalAgent.startswith line (py "## ") = false.

(** A name that can stand in a heading and be read back: not empty, no
    newline in it, no whitespace at either end. *)
Definition section_name (name : str) : Prop :=
  name <> [] /\ Forall (fun c => c <> newline) name /\ trimmed name.

(** ** The time tables as word lists *)







Unset Implicit Arguments.

(** ** Facts about [str] *)

Section TextFacts.

Lemma lstrip_length (s : str) : length (lstrip s) <= length s.
Proof.
  induction s as [|c s IH]; simpl; [lia|].
  destruct (isspace c); simpl; lia.
Qed.

Lemma lead_cons_space (c : ascii) (s : str) :
  isspace c = true -> lead (c :: s) = S (lead s).
Proof.
  intros H. unfold lead. cbn [lstrip]. rewrite H. cbn [length].
  pose proof (lstrip_length s). lia.
Qed.

Lemma lead_cons_other (c : ascii) (s : str) :
  isspace c = false -> lead (c :: s) = 0.
Proof.
  intros H. unfold lead. cbn [lstrip]. rewrite H. lia.
Qed.

Lemma lstrip_fixed (c : ascii) (s : str) :
  isspace c = false -> lstrip (c :: s) = c :: s.
Proof. intros H. simpl. now rewrite H. Qed.

Lemma lstrip_app_keep (s t : str) :
  lstrip s <> [] -> lstrip (s ++ t) = lstrip s ++ t.
Proof.
  induction s as [|c s IH]; simpl; intros H; [congruence|].
  destruct (isspace c); [now apply IH | reflexivity].
Qed.

Lemma strip_trimmed_id (s : str) : trimmed s -> strip s = s.
Proof.
  intros [H1 H2]. unfold strip, rstrip. rewrite H1, H2. apply rev_involutive.
Qed.

Lemma lstrip_head (s : str) :
  lstrip s = [] \/ exists c s', lstrip s = c :: s' /\ isspace c = false.
Proof.
  induction s as [|c s IH]; simpl; [now left|].
  destruct (isspace c) eqn:E; [exact IH|].
  right. now exists c, s.
Qed.

Lemma lstrip_idem (s : str) : lstrip (lstrip s) = lstrip s.
Proof.
  destruct (lstrip_head s) as [H | (c & s' & H & E)]; rewrite H;
    [reflexivity | now apply lstrip_fixed].
Qed.

Lemma lstrip_rev_keeps_head (c : ascii) (s : str) :
  isspace c = false ->
  exists u, lstrip (rev (c :: s)) = u ++ [c].
Proof.
  intros E. simpl.
  destruct (lstrip_head (rev s)) as [H | (d & s' & H & _)].
  - exists []. 
    assert (G : forall u, lstrip u = [] -> lstrip (u ++ [c]) = [c]).
    { induction u as [|x u IH]; simpl; [now rewrite E|].
      destruct (isspace x); [exact IH | discriminate]. }
    now apply G.
  - exists (d :: s'). rewrite lstrip_app_keep by (rewrite H; discriminate).
    now rewrite H.
Qed.

Lemma strip_trimmed (s : str) : trimmed (strip s).
Proof.
  unfold trimmed, strip, rstrip. rewrite rev_involutive, lstrip_idem.
  split; [|reflexivity].
  destruct (lstrip_head s) as [H | (c & s' & H & E)]; rewrite H; [reflexivity|].
  destruct (lstrip_rev_keeps_head c s' E) as [u Hu]. rewrite Hu.
  rewrite rev_app_distr. simpl. now rewrite E.
Qed.

End TextFacts.

(** ** Facts about the matcher *)

Section SubFacts.

Lemma star_space_rest (ic : flags) (prev : option ascii) (s : str) :
  Re.star ic true CSpace prev s (fun _ rest => Some rest) = Some (lstrip s).
Proof.
  revert prev. induction s as [|c s IH]; intros prev; simpl; [reflexivity|].
  destruct (isspace c); [now rewrite IH | reflexivity].
Qed.

Lemma match_spaces (ic : flags) (prev : option ascii) (s : str) :
  match_here ic (Plus CSpace) prev s =
  match s with
  | c :: s' => if isspace c then Some (lstrip s') else None
  | [] => None
  end.
Proof.
  unfold match_here, Plus. simpl. destruct s as [|c s]; [reflexivity|].
  simpl. destruct (isspace c); [apply star_space_rest | reflexivity].
Qed.

Lemma sub_from_skip (ic : flags) (r : regex) (repl : str) (prev : option ascii)
  (c : ascii) (s : str) (n : nat) :
  sub_from ic r repl prev (c :: s) (S n) = sub_from ic r repl (Some c) s n.
Proof. reflexivity. Qed.

Lemma sub_from_hit (ic : flags) (r : regex) (repl : str) (prev : option ascii)
  (c : ascii) (s rest : str) :
  match_here ic r prev (c :: s) = Some rest ->
  sub_from ic r repl prev (c :: s) 0 =
  repl ++ match length (c :: s) - length rest with
          | O => c :: sub_from ic r repl (Some c) s 0
          | S n => sub_from ic r repl (Some c) s n
          end.
Proof. intros H. cbn [sub_from]. now rewrite H. Qed.

Lemma sub_from_miss (ic : flags) (r : regex) (repl : str) (prev : option ascii)
  (c : ascii) (s : str) :
  match_here ic r prev (c :: s) = None ->
  sub_from ic r repl prev (c :: s) 0 = c :: sub_from ic r repl (Some c) s 0.
Proof. intros H. cbn [sub_from]. now rewrite H. Qed.

Lemma sub_from_nil (ic : flags) (r : regex) (repl : str) (prev : option ascii) :
  match_here ic r prev [] = None -> sub_from ic r repl prev [] 0 = [].
Proof. intros H. cbn [sub_from]. now rewrite H. Qed.

(** [re.sub(r'\s+', ' ', s)] replaces every run of whitespace by one space. *)
Lemma sub_spaces_from (ic : flags) (s : str) :
  forall prev,
    sub_from ic (Plus CSpace) (py " ") prev s 0 = squeeze false s /\
    sub_from ic (Plus CSpace) (py " ") prev s (lead s) = squeeze true s.
Proof.
  induction s as [|c s IH]; intros prev.
  - split; apply sub_from_nil; apply match_spaces.
  - assert (First : sub_from ic (Plus CSpace) (py " ") prev (c :: s) 0
                    = squeeze false (c :: s)).
    { destruct (isspace c) eqn:E.
      - rewrite (sub_from_hit ic (Plus CSpace) (py " ") prev c s (lstrip s))
          by (rewrite match_spaces, E; reflexivity).
        replace (length (c :: s) - length (lstrip s)) with (S (lead s))
          by (unfold lead; pose proof (lstrip_length s); cbn [length]; lia).
        rewrite (proj2 (IH (Some c))). simpl. now rewrite E.
      - rewrite sub_from_miss by (rewrite match_spaces, E; reflexivity).
        rewrite (proj1 (IH (Some c))). simpl. now rewrite E. }
    split; [exact First|].
    destruct (isspace c) eqn:E.
    + rewrite (lead_cons_space c s E), sub_from_skip, (proj2 (IH (Some c))).
      simpl. now rewrite E.
    + rewrite (lead_cons_other c s E), First. simpl. now rewrite E.
Qed.

Lemma sub_spaces (s : str) :
  Re.sub (Plus CSpace) (py " ") s = squeeze false s.
Proof. exact (proj1 (sub_spaces_from NOFLAG s None)). Qed.

Lemma harmful_cset (c : ascii) :
  cset_in NOFLAG (COneOf (py "<>{}")) c = harmful c.
Proof.
  unfold harmful, ascii_in, cset_in, lit_match. simpl.
  rewrite !(Ascii.eqb_sym c). reflexivity.
Qed.

(** [re.sub(r'[<>{}]', '', s)] deletes these four characters. *)
Lemma sub_harmful_from (s : str) :
  forall prev,
    sub_from NOFLAG (Chr (COneOf (py "<>{}"))) (py "") prev s 0
    = filter (fun c => negb (harmful c)) s.
Proof.
  induction s as [|c s IH]; intros prev; [reflexivity|].
  destruct (harmful c) eqn:E.
  - rewrite (sub_from_hit NOFLAG _ (py "") prev c s s).
    + replace (length (c :: s) - length s) with 1 by (cbn [length]; lia).
      simpl. rewrite E. simpl. apply IH.
    + unfold match_here. cbn [mtch]. now rewrite harmful_cset, E.
  - rewrite sub_from_miss.
    + simpl. rewrite E. simpl. f_equal. apply IH.
    + unfold match_here. cbn [mtch]. now rewrite harmful_cset, E.
Qed.

Lemma clean_query_eq (t : str) :
  _clean_query t = filter (fun c => negb (harmful c)) (squeeze false (strip t)).
Proof.
  unfold _clean_query. rewrite sub_spaces. apply sub_harmful_from.
Qed.

End SubFacts.

(** ** Facts about [_clean_query] *)

Section CleanFacts.

Lemma squeeze_idem (s : str) :
  forall b, squeeze b (squeeze b s) = squeeze b s.
Proof.
  induction s as [|c s IH]; intros b; [reflexivity|].
  simpl. destruct (isspace c) eqn:E.
  - destruct b; [apply IH|]. simpl. f_equal. apply IH.
  - simpl. rewrite E. f_equal. apply IH.
Qed.

Lemma squeeze_snoc (u : str) (c : ascii) :
  isspace c = false -> forall b, squeeze b (u ++ [c]) = squeeze b u ++ [c].
Proof.
  intros E. induction u as [|x u IH]; intros b; simpl.
  - now rewrite E.
  - destruct (isspace x); [destruct b|]; simpl; now rewrite IH.
Qed.

Lemma trimmed_head (c : ascii) (s : str) :
  lstrip (c :: s) = c :: s -> isspace c = false.
Proof.
  intros H. destruct (lstrip_head (c :: s)) as [G | (d & s' & G & E)];
    rewrite H in G; [discriminate | now injection G as -> _].
Qed.

Lemma trimmed_squeeze (x : str) : trimmed x -> trimmed (squeeze false x).
Proof.
  destruct x as [|c s]; intros [H1 H2]; [now split|].
  pose proof (trimmed_head c s H1) as E. split.
  - simpl. rewrite E. simpl. now rewrite E.
  - destruct (rev (c :: s)) as [|d r] eqn:R.
    + apply (f_equal (@length ascii)) in R. rewrite length_rev in R. discriminate.
    + pose proof (trimmed_head d r H2) as Ed.
      apply (f_equal (@rev ascii)) in R. rewrite rev_involutive in R.
      rewrite R. cbn [rev]. rewrite (squeeze_snoc (rev r) d Ed).
      rewrite rev_app_distr. simpl. now rewrite Ed.
Qed.

Lemma lstrip_safe (P : ascii -> Prop) (s : str) : Forall P s -> Forall P (lstrip s).
Proof.
  induction 1 as [|c s Hc Hs IH]; simpl; [constructor|].
  destruct (isspace c); [exact IH | now constructor].
Qed.

Lemma strip_safe (P : ascii -> Prop) (s : str) : Forall P s -> Forall P (strip s).
Proof.
  intros H. unfold strip, rstrip.
  apply Forall_rev, lstrip_safe, Forall_rev, lstrip_safe, H.
Qed.

Lemma squeeze_safe (s : str) :
  Forall (fun c => harmful c = false) s ->
  forall b, Forall (fun c => harmful c = false) (squeeze b s).
Proof.
  induction 1 as [|c s Hc Hs IH]; intros b; simpl; [constructor|].
  destruct (isspace c); [destruct b|]; try constructor; auto.
Qed.

Lemma filter_safe (s : str) :
  Forall (fun c => harmful c = false) s ->
  filter (fun c => negb (harmful c)) s = s.
Proof.
  induction 1 as [|c s Hc Hs IH]; simpl; [reflexivity|].
  rewrite Hc. simpl. now rewrite IH.
Qed.

Lemma filter_is_safe (s : str) :
  Forall (fun c => harmful c = false) (filter (fun c => negb (harmful c)) s).
Proof.
  induction s as [|c s IH]; simpl; [constructor|].
  destruct (harmful c) eqn:E; simpl; [exact IH | now constructor].
Qed.

(** On a text without the four characters, cleaning is squeezing the
    stripped text. *)
Lemma clean_safe (t : str) :
  Forall (fun c => harmful c = false) t ->
  _clean_query t = squeeze false (strip t).
Proof.
  intros H. rewrite clean_query_eq.
  apply filter_safe, squeeze_safe, strip_safe, H.
Qed.

Lemma clean_safe_fixed (t : str) :
  Forall (fun c => harmful c = false) t ->
  _clean_query (_clean_query t) = _clean_query t.
Proof.
  intros H. rewrite (clean_safe t H).
  rewrite clean_safe by (apply squeeze_safe, strip_safe, H).
  rewrite (strip_trimmed_id _ (trimmed_squeeze _ (strip_trimmed t))).
  apply squeeze_idem.
Qed.

(** Whatever the text, the cleaned text is a fixed point of cleaning from the
    second application on. *)
Lemma clean_query_stable (t : str) :
  _clean_query (_clean_query (_clean_query t)) = _clean_query (_clean_query t).
Proof.
  apply clean_safe_fixed. rewrite (clean_query_eq t). apply filter_is_safe.
Qed.

End CleanFacts.

(** ** Facts about [search] on the word tables *)

Section SearchFacts.

Lemma lit_match_refl (ic : flags) (c : ascii) : lit_match ic c c = true.
Proof. unfold lit_match. destruct ic; apply Ascii.eqb_refl. Qed.

Lemma mtch_Lit_chars (ic : flags) (A : Type) (w : list ascii) :
  forall (prev : option ascii) (post : str) (k : option ascii -> str -> option A),
    mtch ic (Lit_chars w) prev (w ++ post) k = k (last_char prev w) post.
Proof.
  induction w as [|c w IH]; intros prev post k; [reflexivity|].
  destruct w as [|d w].
  - simpl. now rewrite lit_match_refl.
  - change (Lit_chars (c :: d :: w)) with (Seq (Chr (CLit c)) (Lit_chars (d :: w))).
    change ((c :: d :: w) ++ post) with (c :: ((d :: w) ++ post)).
    cbn [mtch cset_in]. rewrite lit_match_refl. now rewrite IH.
Qed.

Lemma mtch_Alts_in (ic : flags) (A : Type) (l : list regex) (r : regex)
  (prev : option ascii) (s : str) (k : option ascii -> str -> option A) (x : A) :
  In r l -> mtch ic r prev s k = Some x ->
  exists y, mtch ic (Alts l) prev s k = Some y.
Proof.
  induction l as [|a l IH]; intros Hin Hm; [contradiction|].
  destruct l as [|b l].
  - destruct Hin as [-> | []]. now exists x.
  - change (Alts (a :: b :: l)) with (Alt a (Alts (b :: l))). cbn [mtch].
    destruct (mtch ic a prev s k) as [y|] eqn:E; [now exists y|].
    destruct Hin as [-> | Hin]; [congruence | now apply IH].
Qed.

Lemma match_here_Words (ic : flags) (l : list regex) (prev : option ascii) (s : str) :
  match_here ic (Words l) prev s =
  if at_boundary prev s then
    mtch ic (Alts l) prev s (fun p' s' => if at_boundary p' s' then Some s' else None)
  else None.
Proof. reflexivity. Qed.

Lemma search_from_hit (ic : flags) (r : regex) (prev : option ascii) (s x : str) :
  match_here ic r prev s = Some x -> search_from ic r prev s = true.
Proof. intros H. destruct s; simpl; now rewrite H. Qed.

Lemma search_from_later (ic : flags) (r : regex) (prev : option ascii)
  (c : ascii) (s : str) :
  search_from ic r (Some c) s = true -> search_from ic r prev (c :: s) = true.
Proof. intros H. simpl. now destruct (match_here ic r prev (c :: s)). Qed.

Lemma search_from_app (ic : flags) (r : regex) (pre : str) :
  forall (prev : option ascii) (s x : str),
    match_here ic r (last_char prev pre) s = Some x ->
    search_from ic r prev (pre ++ s) = true.
Proof.
  induction pre as [|c pre IH]; intros prev s x H.
  - now apply search_from_hit with x.
  - simpl. apply search_from_later. now apply IH with x.
Qed.

(** A listed word standing between two word boundaries is found. *)
Lemma search_word (ic : flags) (l : list regex) (w pre post : str) :
  In (Lit_chars w) l ->
  at_boundary (last_char None pre) (w ++ post) = true ->
  at_boundary (last_char (last_char None pre) w) post = true ->
  Re.search (Words l) (pre ++ w ++ post) ic = true.
Proof.
  intros Hin H1 H2. unfold Re.search.
  destruct (mtch_Alts_in ic str l (Lit_chars w) (last_char None pre) (w ++ post)
              (fun p' s' => if at_boundary p' s' then Some s' else None) post Hin)
    as [y Hy].
  - rewrite mtch_Lit_chars. now rewrite H2.
  - apply search_from_app with y. rewrite match_here_Words, H1. exact Hy.
Qed.



Lemma analyze_location_context (t : str) :
  location_context (analyze_query t) = _extract_location_context (lower t).
Proof. unfold analyze_query. now destruct (_determine_query_type (lower t)). Qed.

End SearchFacts.

(** ** Facts about [_determine_query_type] *)

Section ClassifyFacts.

Lemma QueryType_eqb_eq (a b : QueryType) : QueryType_eqb a b = true <-> a = b.
Proof. destruct a, b; simpl; split; congruence. Qed.

Lemma QueryType_eqb_refl (a : QueryType) : QueryType_eqb a a = true.
Proof. now destruct a. Qed.

Lemma QueryType_eqb_neq (a b : QueryType) : a <> b -> QueryType_eqb a b = false.
Proof.
  intros H. destruct (QueryType_eqb a b) eqn:E; [|reflexivity].
  now apply QueryType_eqb_eq in E.
Qed.

Lemma dict_set_fresh (d : dict) (k : QueryType) (v : nat) :
  dict_get d k = None -> dict_set d k v = d ++ [(k, v)].
Proof.
  induction d as [|[k' v'] d IH]; simpl; [reflexivity|].
  destruct (QueryType_eqb k' k); [discriminate|].
  intros H. now rewrite IH.
Qed.

Lemma dict_get_snoc (d : dict) (k k' : QueryType) (v : nat) :
  k <> k' -> dict_get d k' = None -> dict_get (d ++ [(k, v)]) k' = None.
Proof.
  intros Hk. induction d as [|[a b] d IH]; simpl.
  - now rewrite (QueryType_eqb_neq k k' Hk).
  - destruct (QueryType_eqb a k'); [discriminate | exact IH].
Qed.

(** The loop over the pattern table leaves, in the order of the table, the
    entries whose score is positive. *)
Lemma fold_scores (q : str) (l : list (QueryType * list regex)) :
  forall acc : dict,
    NoDup (map fst l) ->
    (forall k, In k (map fst l) -> dict_get acc k = None) ->
    fold_left
      (fun (type_scores : dict) (entry : QueryType * list regex) =>
         let (query_type, patterns) := entry in
         let score := pattern_score patterns q in
         if 0 <? score then dict_set type_scores query_type score else type_scores)
      l acc
    = acc ++ filter (fun e => 0 <? snd e)
               (map (fun e => (fst e, pattern_score (snd e) q)) l).
Proof.
  induction l as [|[k pats] l IH]; intros acc Hnd Hfresh.
  - simpl. now rewrite app_nil_r.
  - inversion Hnd as [|? ? Hk Hnd']; subst.
    cbn [fold_left map filter fst snd].
    destruct (0 <? pattern_score pats q) eqn:E.
    + rewrite dict_set_fresh by (apply Hfresh; now left).
      rewrite IH; [now rewrite <- app_assoc | exact Hnd' |].
      intros k' Hk'. apply dict_get_snoc.
      * intros ->. now apply Hk.
      * apply Hfresh. now right.
    + apply IH; [exact Hnd'|]. intros k' Hk'. apply Hfresh. now right.
Qed.

Lemma intents_eq : intents = [FOOD; TRAFFIC; SLANG; ITINERARY; CULTURE].
Proof. reflexivity. Qed.

Lemma scored_eq (q : str) :
  map (fun e => (fst e, pattern_score (snd e) q)) query_patterns
  = map (fun k => (k, intent_score k q)) intents.
Proof. reflexivity. Qed.

Lemma filter_graph (f : QueryType -> nat) (L : list QueryType) :
  dict_keys (filter (fun e => 0 <? snd e) (map (fun k => (k, f k)) L))
  = filter (fun k => 0 <? f k) L.
Proof.
  induction L as [|a L IH]; [reflexivity|].
  cbn [map filter snd]. unfold dict_keys in *.
  destruct (0 <? f a); simpl; now rewrite IH.
Qed.

Lemma dict_at_graph (f : QueryType -> nat) (L : list QueryType) (k : QueryType) :
  In k (filter (fun k => 0 <? f k) L) ->
  dict_at (filter (fun e => 0 <? snd e) (map (fun k => (k, f k)) L)) k = f k.
Proof.
  unfold dict_at. induction L as [|a L IH]; [contradiction|].
  cbn [map filter snd]. destruct (0 <? f a) eqn:E.
  - cbn [dict_get]. destruct (QueryType_eqb a k) eqn:Ek.
    + apply QueryType_eqb_eq in Ek. now subst.
    + intros [-> | H]; [now rewrite QueryType_eqb_refl in Ek | now apply IH].
  - exact IH.
Qed.

Lemma py_max_ext (A : Type) (f g : A -> nat) (l : list A) :
  forall x, (forall y, In y (x :: l) -> f y = g y) -> py_max f x l = py_max g x l.
Proof.
  induction l as [|y l IH]; intros x H; [reflexivity|].
  simpl. rewrite (H x), (H y) by (simpl; auto).
  destruct (g x <? g y); apply IH; intros z [-> | Hz]; apply H; simpl; auto.
Qed.

(** Python's [max]: the result is maximal, and strictly above everything
    before it. *)
Lemma py_max_spec (A : Type) (key : A -> nat) (l : list A) :
  forall x, exists l1 l2,
    x :: l = l1 ++ py_max key x l :: l2 /\
    (forall y, In y l1 -> key y < key (py_max key x l)) /\
    (forall y, In y l2 -> key y <= key (py_max key x l)).
Proof.
  induction l as [|y l IH]; intros x.
  - exists [], []. simpl. repeat split; intros ? [].
  - simpl. destruct (Nat.ltb_spec (key x) (key y)) as [Hlt | Hge].
    + destruct (IH y) as (l1 & l2 & E & H1 & H2).
      exists (x :: l1), l2. rewrite E. repeat split; [|exact H2].
      intros z [-> | Hz]; [|now apply H1].
      destruct l1 as [|a l1]; simpl in E; injection E as Ea El.
      * now rewrite <- Ea.
      * subst a. specialize (H1 y (or_introl eq_refl)). lia.
    + destruct (IH x) as (l1 & l2 & E & H1 & H2).
      remember (py_max key x l) as m eqn:Hm. clear Hm.
      destruct l1 as [|a l1]; simpl in E; injection E as Ea El; subst.
      * exists [], (y :: l2). simpl.
        repeat split; [intros ? [] |].
        intros z [-> | Hz]; [exact Hge | now apply H2].
      * exists (a :: y :: l1), l2. simpl.
        repeat split; [|exact H2].
        pose proof (H1 a (or_introl eq_refl)).
        intros z [-> | [-> | Hz]]; [assumption | lia | apply H1; now right].
Qed.

Lemma sorted_filter (A : Type) (R : A -> A -> Prop) (p : A -> bool) (l : list A) :
  StronglySorted R l -> StronglySorted R (filter p l).
Proof.
  induction 1 as [|a l Hs IH Ha]; simpl; [constructor|].
  destruct (p a); [|exact IH]. constructor; [exact IH|].
  apply Forall_forall. intros x Hx. apply filter_In in Hx.
  rewrite Forall_forall in Ha. now apply Ha.
Qed.

Lemma sorted_split (A : Type) (R : A -> A -> Prop) (l1 l2 : list A) (m : A) :
  StronglySorted R (l1 ++ m :: l2) ->
  (forall y, In y l1 -> R y m) /\ (forall y, In y l2 -> R m y).
Proof.
  induction l1 as [|a l1 IH]; simpl; intros H; inversion H as [|? ? Hs Ha]; subst.
  - rewrite Forall_forall in Ha. split; [intros ? [] | exact Ha].
  - destruct (IH Hs) as [H1 H2]. split; [|exact H2].
    rewrite Forall_forall in Ha.
    intros y [-> | Hy]; [apply Ha, in_elt | now apply H1].
Qed.

Lemma intents_sorted : StronglySorted (fun a b => rank a < rank b) intents.
Proof.
  rewrite intents_eq. repeat constructor; simpl; lia.
Qed.

End ClassifyFacts.

Section DetermineFacts.

Variable q : str.

Lemma py_max_in (A : Type) (key : A -> nat) (l : list A) (x : A) :
  In (py_max key x l) (x :: l).
Proof.
  destruct (py_max_spec A key l x) as (l1 & l2 & E & _). rewrite E. apply in_elt.
Qed.

(** [_determine_query_type] in terms of the scores of the five tables. *)
Lemma determine_cases :
  match filter (fun k => 0 <? intent_score k q) intents with
  | [] => _determine_query_type q = (GENERAL, 0.5%Q)
  | k :: ks =>
      let best := py_max (fun k => intent_score k q) k ks in
      _determine_query_type q =
      (best, Qmin 0.9 (0.5 + inject_Z (Z.of_nat (intent_score best q)) * 0.2)%Q)
  end.
Proof.
  unfold _determine_query_type.
  assert (F := fold_scores q query_patterns []). cbv zeta in F.
  rewrite F; [| repeat constructor; simpl; intuition discriminate | reflexivity].
  clear F. rewrite app_nil_l, scored_eq, filter_graph.
  destruct (filter (fun k => 0 <? intent_score k q) intents) as [|k ks] eqn:E;
    [reflexivity|].
  assert (Hat : forall y, In y (k :: ks) ->
            dict_at (filter (fun e => 0 <? snd e)
                       (map (fun k => (k, intent_score k q)) intents)) y
            = intent_score y q).
  { intros y Hy. apply dict_at_graph. now rewrite E. }
  cbv zeta. rewrite (py_max_ext _ _ (fun k => intent_score k q) ks k Hat).
  rewrite Hat by apply py_max_in. reflexivity.
Qed.

End DetermineFacts.

Section AnalyzeFacts.

Lemma analyze_fields (t : str) :
  query_type (analyze_query t) = fst (_determine_query_type (lower t)) /\
  confidence (analyze_query t) = snd (_determine_query_type (lower t)) /\
  is_valid (analyze_query t) =
    negb (QueryType_eqb (fst (_determine_query_type (lower t))) INVALID)
    && negb (Qle_bool (snd (_determine_query_type (lower t))) 0.3).
Proof. unfold analyze_query. now destruct (_determine_query_type (lower t)). Qed.

(** No table matches: the fallback. *)
Lemma classify_none (t : str) :
  (forall k, In k intents -> intent_score k (lower t) = 0) ->
  _determine_query_type (lower t) = (GENERAL, 0.5%Q).
Proof.
  intros H. pose proof (determine_cases (lower t)) as D.
  destruct (filter (fun k => 0 <? intent_score k (lower t)) intents)
    as [|k ks] eqn:E; [exact D|].
  assert (Hk : In k (filter (fun k => 0 <? intent_score k (lower t)) intents))
    by (rewrite E; now left).
  apply filter_In in Hk. destruct Hk as [Hin Hpos].
  rewrite (H k Hin) in Hpos. discriminate.
Qed.

(** Some table matches: the first table of maximal score wins, and the
    confidence is computed from its score. *)
Lemma classify_some (t : str) :
  (exists k, In k intents /\ 0 < intent_score k (lower t)) ->
  exists best,
    _determine_query_type (lower t) =
      (best,
       Qmin 0.9 (0.5 + inject_Z (Z.of_nat (intent_score best (lower t))) * 0.2)%Q) /\
    In best intents /\
    0 < intent_score best (lower t) /\
    (forall k, In k intents ->
       intent_score k (lower t) <= intent_score best (lower t)) /\
    (forall k, In k intents -> rank k < rank best ->
       intent_score k (lower t) < intent_score best (lower t)).
Proof.
  intros (k0 & Hk0 & Hpos0). set (q := lower t) in *.
  pose proof (determine_cases q) as D.
  pose proof (sorted_filter _ _ (fun k => 0 <? intent_score k q) _ intents_sorted) as S.
  assert (Hmem : forall k, In k (filter (fun k => 0 <? intent_score k q) intents)
                           <-> In k intents /\ 0 < intent_score k q).
  { intros k. rewrite filter_In, Nat.ltb_lt. reflexivity. }
  destruct (filter (fun k => 0 <? intent_score k q) intents) as [|k ks] eqn:E.
  - exfalso. now apply (proj2 (Hmem k0)).
  - cbv zeta in D.
    destruct (py_max_spec _ (fun k => intent_score k q) ks k)
      as (l1 & l2 & Esplit & H1 & H2).
    set (best := py_max (fun k => intent_score k q) k ks) in *.
    assert (Hbest : In best intents /\ 0 < intent_score best q).
    { apply Hmem. rewrite Esplit. apply in_elt. }
    rewrite Esplit in S, Hmem. destruct (sorted_split _ _ _ _ _ S) as [R1 R2].
    exists best. split; [exact D|]. split; [apply Hbest|]. split; [apply Hbest|].
    assert (Hcase : forall y, In y intents ->
              intent_score y q = 0 \/ In y l1 \/ y = best \/ In y l2).
    { intros y Hy. destruct (Nat.eq_dec (intent_score y q) 0) as [Z|NZ]; [now left|].
      right. assert (Hin : In y (l1 ++ best :: l2)) by (apply Hmem; split; [easy|lia]).
      apply in_app_or in Hin. destruct Hin as [|[|]]; auto. }
    split; intros y Hy.
    + destruct (Hcase y Hy) as [Z | [Hl | [-> | Hl]]].
      * lia.
      * specialize (H1 y Hl). lia.
      * lia.
      * exact (H2 y Hl).
    + intros Hr. destruct (Hcase y Hy) as [Z | [Hl | [-> | Hl]]].
      * destruct Hbest. lia.
      * exact (H1 y Hl).
      * lia.
      * specialize (R2 y Hl). simpl in R2. lia.
Qed.

Lemma confidence_formula_bounds (n : nat) :
  (0.5 <= Qmin 0.9 (0.5 + inject_Z (Z.of_nat n) * 0.2) /\
   Qmin 0.9 (0.5 + inject_Z (Z.of_nat n) * 0.2) <= 0.9)%Q.
Proof.
  split; [|apply Q.le_min_l].
  apply Q.min_glb; [discriminate|].
  rewrite <- (Qplus_0_r 0.5) at 1. apply Qplus_le_r.
  apply Qmult_le_0_compat; [|discriminate].
  change 0%Q with (inject_Z 0). rewrite <- Zle_Qle. lia.
Qed.

Lemma confidence_formula_matched (n : nat) :
  0 < n -> (0.7 <= Qmin 0.9 (0.5 + inject_Z (Z.of_nat n) * 0.2))%Q.
Proof.
  intros H. apply Q.min_glb; [discriminate|].
  setoid_replace 0.7%Q with (0.5 + inject_Z 1 * 0.2)%Q by reflexivity.
  apply Qplus_le_r. apply Qmult_le_compat_r; [|discriminate].
  rewrite <- Zle_Qle. lia.
Qed.

(** Whatever the text, the analyzer's verdict lies among the five intents
    and the fallback, with a confidence between 0.5 and 0.9. *)
Lemma determine_range (t : str) :
  fst (_determine_query_type (lower t)) <> INVALID /\
  (0.5 <= snd (_determine_query_type (lower t)) <= 0.9)%Q.
Proof.
  destruct (Forall_Exists_dec (fun k => intent_score k (lower t) = 0)
              (fun k => Nat.eq_dec (intent_score k (lower t)) 0) intents) as [Hz | Hnz].
  - rewrite classify_none by (now apply Forall_forall). simpl.
    repeat split; discriminate.
  - apply Exists_exists in Hnz. destruct Hnz as (k & Hk & Hpos).
    destruct (classify_some t) as (best & -> & Hin & _).
    { exists k. split; [exact Hk | lia]. }
    simpl. split; [|apply confidence_formula_bounds].
    intros ->. rewrite intents_eq in Hin. simpl in Hin. intuition discriminate.
Qed.

Lemma analyze_is_valid (t : str) : is_valid (analyze_query t) = true.
Proof.
  destruct (analyze_fields t) as (_ & _ & ->).
  destruct (determine_range t) as [Hne [Hlo _]].
  apply andb_true_iff. split; apply negb_true_iff.
  - now apply QueryType_eqb_neq.
  - destruct (Qle_bool (snd (_determine_query_type (lower t))) 0.3) eqn:E;
      [|reflexivity].
    apply Qle_bool_iff in E. exfalso.
    apply (Qle_not_lt _ _ (Qle_trans _ _ _ Hlo E)). reflexivity.
Qed.

End AnalyzeFacts.

(** ** Facts about [process_query] *)

Section ProcessFacts.

(** One call, step by step: two clock readings, and one of three results. *)
Lemma process_query_run (w : World) (m : Machine) (t : str) :
  run (process_query t) w m =
  let elapsed := elapsed_at w (ticks m) in
  let '(valid, cleaned_text, error_msg) := validate_query t in
  if valid then
    let (p, reply) := consult w (self m) cleaned_text in
    (Return match reply with
            | inl e => faulted t cleaned_text e elapsed
            | inr response => answered cleaned_text response elapsed
            end,
     {| self := p; ticks := S (S (ticks m)) |})
  else
    (Return (rejected t error_msg elapsed),
     {| self := self m; ticks := S (S (ticks m)) |}).
Proof.
  unfold run, process_query, bind, datetime_now at 1.
  destruct (validate_query t) as [[valid cleaned_text] error_msg].
  unfold process_query_try, process_query_except.
  destruct valid; [|reflexivity].
  cbn [negb]. rewrite analyze_is_valid. cbn [negb].
  destruct m as [[[ag] init] n]. unfold consult. cbn [self ticks _agent_initialized
    agent_manager Agent.agent].
  destruct init.
  - destruct ag as [a|]; [|reflexivity].
    unfold try_except, bind, get_self, process_user_query, bind, get_self.
    cbn. destruct (Agent.process_query a cleaned_text); reflexivity.
  - unfold try_except, bind, get_self, initialize_agent. cbn.
    destruct (load_agent w) as [e|a]; [reflexivity|].
    cbn. destruct (Agent.process_query a cleaned_text); reflexivity.
Qed.

End ProcessFacts.

Section ValidateFacts.

(** The two length tests come before everything but the emptiness test. *)
Lemma validate_out_of_bounds (t : str) :
  length (strip t) < 2 \/ 500 < length t ->
  exists error_msg, validate_query t = (false, py "", error_msg).
Proof.
  intros H. unfold validate_query. destruct t as [|c t]; [eexists; reflexivity|].
  unfold min_length, max_length.
  destruct (Nat.ltb_spec (length (strip (c :: t))) 2); [eexists; reflexivity|].
  destruct (Nat.ltb_spec 500 (length (c :: t))); [eexists; reflexivity|].
  lia.
Qed.

Lemma validate_rejected_run (w : World) (m : Machine) (t cleaned_text error_msg : str) :
  validate_query t = (false, cleaned_text, error_msg) ->
  run (process_query t) w m =
  (Return (rejected t error_msg (elapsed_at w (ticks m))),
   {| self := self m; ticks := S (S (ticks m)) |}).
Proof. intros V. rewrite process_query_run, V. reflexivity. Qed.

Lemma process_query_returns (w : World) (m : Machine) (t : str) :
  exists r m', run (process_query t) w m = (Return r, m').
Proof.
  rewrite process_query_run. cbv zeta.
  destruct (validate_query t) as [[valid cleaned_text] error_msg].
  destruct valid; [|eexists; eexists; reflexivity].
  destruct (consult w (self m) cleaned_text) as [p reply].
  eexists; eexists; reflexivity.
Qed.

End ValidateFacts.

Section FaultFacts.

(** An exception leaving the [try] block becomes a failure result. *)
Lemma process_query_fault (w : World) (m m1 : Machine) (t : str) (valid : bool)
  (cleaned_text error_msg : str) (e : Agent.PyException) :
  validate_query t = (valid, cleaned_text, error_msg) ->
  run (process_query_try t (clock w (ticks m)) valid cleaned_text error_msg) w
      {| self := self m; ticks := S (ticks m) |} = (Raise e, m1) ->
  exists elapsed m',
    run (process_query t) w m = (Return (faulted t cleaned_text e elapsed), m').
Proof.
  intros V R. unfold run, process_query, bind, datetime_now at 1. rewrite V.
  unfold try_except. unfold run in R. rewrite R.
  unfold process_query_except, bind, _get_elapsed_ms, bind, datetime_now, ret.
  eexists; eexists; reflexivity.
Qed.

(** A second consultation finds the processor the first one left and gets
    the same reply. *)
Lemma consult_again (w : World) (p0 p : QueryProcessor) (cleaned_text : str)
  (reply : Agent.PyException + Agent.AgentResponse) :
  consult w p0 cleaned_text = (p, reply) ->
  consult w p cleaned_text = (p, reply).
Proof.
  unfold consult. destruct p0 as [[ag] init]. cbn.
  destruct init.
  - destruct ag as [a|]; intros E; injection E as <- <-; reflexivity.
  - destruct (load_agent w) as [e|a] eqn:L; intros E; injection E as <- <-; cbn.
    + reflexivity.
    + reflexivity.
Qed.

Lemma fresh_run (w : World) (m : Machine) (t : str) :
  run (process_user_query_fresh t) w m =
  run (process_query t) w {| self := new_QueryProcessor None; ticks := ticks m |}.
Proof. reflexivity. Qed.

Lemma answer_messages (t cleaned_text : str) (e : Agent.PyException)
  (response : Agent.AgentResponse) (elapsed : Q) :
  error_message (faulted t cleaned_text e elapsed)
    <> Some (py "Query could not be understood") /\
  error_message (answered cleaned_text response elapsed)
    <> Some (py "Query could not be understood").
Proof. split; cbn; discriminate. Qed.

End FaultFacts.

(** ** What a found table entry says about the text *)

Section SearchSound.

Lemma lower_char_idem (c : ascii) : lower_char (lower_char c) = lower_char c.
Proof. destruct c as [[] [] [] [] [] [] [] []]; reflexivity. Qed.

Lemma lower_is_lower (t : str) : Forall (fun c => lower_char c = c) (lower t).
Proof.
  unfold lower. induction t as [|c t IH]; simpl; constructor;
    [apply lower_char_idem | exact IH].
Qed.













End SearchSound.

(** * The claims *)

(** ** C1 *)

(** C1. For every sanitized text [t] in which at least one intent pattern
    matches, the analyzer's intent is among the five tabled intents, no intent
    has a higher total match count, and every intent with the same count
    comes later in the order Food > Traffic > Slang > Itinerary > Culture
    (equivalently: every intent earlier in that order has a strictly lower
    count). *)
Theorem classification_first_maximum (t : str) :
  (exists k, In k intents /\ 0 < intent_score k (lower t)) ->
  let best := query_type (analyze_query t) in
  In best intents /\
  (forall k, In k intents ->
     intent_score k (lower t) <= intent_score best (lower t)) /\
  (forall k, In k intents ->
     intent_score k (lower t) = intent_score best (lower t) ->
     rank best <= rank k) /\
  (forall k, In k intents -> rank k < rank best ->
     intent_score k (lower t) < intent_score best (lower t)).
Proof.
  intros H. destruct (classify_some t H) as (best & E & Hin & _ & Hmax & Hfirst).
  destruct (analyze_fields t) as (Hq & _). cbv zeta. rewrite Hq, E. cbn [fst].
  repeat split; try assumption.
  intros k Hk Heq. destruct (Nat.le_gt_cases (rank best) (rank k)) as [|Hlt];
    [assumption|].
  specialize (Hfirst k Hk Hlt). lia.
Qed.

Lemma classification_first_maximum_witness :
  (exists k, In k intents /\ 0 < intent_score k (lower (py "Eat near the Metro"))) /\
  query_type (analyze_query (py "Eat near the Metro")) = FOOD /\
  intent_score TRAFFIC (lower (py "Eat near the Metro"))
  <= intent_score (query_type (analyze_query (py "Eat near the Metro")))
       (lower (py "Eat near the Metro")).
Proof.
  assert (H : exists k, In k intents /\
                        0 < intent_score k (lower (py "Eat near the Metro"))).
  { exists TRAFFIC. split; [right; left; reflexivity | vm_compute; repeat constructor]. }
  split; [exact H|]. split; [vm_compute; reflexivity|].
  apply (proj1 (proj2 (classification_first_maximum (py "Eat near the Metro") H))).
  right; left; reflexivity.
Defined.

(** ** C2 *)

(** C2 as stated fails at the level of [process_query]: "What does guru
    mean?" is accepted and matches the slang table, yet when loading the
    agent raises the result carries confidence 0.0; and "javascript: food"
    matches the food table, yet it is rejected and carries confidence 0.0. *)
Lemma matched_query_can_have_zero_confidence :
  (validate_query (py "What does guru mean?")
     = (true, py "What does guru mean?", py "") /\
   0 < intent_score SLANG (lower (py "What does guru mean?")) /\
   exists r m',
     run (process_query (py "What does guru mean?")) world_without_files fresh_machine
     = (Return r, m') /\
     confidence (processed_query r) = 0.0%Q /\
     ~ (0.5 <= confidence (processed_query r))%Q) /\
  (0 < intent_score FOOD (lower (py "javascript: food")) /\
   exists r m',
     run (process_query (py "javascript: food")) world_without_files fresh_machine
     = (Return r, m') /\
     confidence (processed_query r) = 0.0%Q /\
     ~ (0.5 <= confidence (processed_query r))%Q).
Proof.
  split.
  - split; [vm_compute; reflexivity|]. split; [vm_compute; repeat constructor|].
    eexists; eexists. split; [vm_compute; reflexivity|].
    split; [reflexivity|]. intros Hle. apply Hle. reflexivity.
  - split; [vm_compute; repeat constructor|].
    eexists; eexists. split; [vm_compute; reflexivity|].
    split; [reflexivity|]. intros Hle. apply Hle. reflexivity.
Qed.

(** C2 (amended). For every sanitized text [t] with at least one
    intent-pattern match, the returned intent is one of the five tabled
    intents, its match count is positive and the highest of the five, and
    the analyzer's confidence is min(0.9, 0.5 + 0.2 x that count), hence at
    least 0.5.  Every call of [process_query], on any input and whatever the
    agent does, returns a result whose confidence lies between 0.0 and 0.9:
    at least 0.5 when the call succeeds and exactly 0.0 when it fails.  When
    [t] is the validator's cleaned text of the input and the call succeeds,
    the result carries the analyzer's confidence for [t]. *)
Theorem confidence_formula_and_bounds (t : str) :
  (exists k, In k intents /\ 0 < intent_score k (lower t)) ->
  let pq := analyze_query t in
  let winning := intent_score (query_type pq) (lower t) in
  In (query_type pq) intents /\
  0 < winning /\
  (forall k, In k intents -> intent_score k (lower t) <= winning) /\
  (confidence pq == Qmin 0.9 (0.5 + 0.2 * inject_Z (Z.of_nat winning)))%Q /\
  (0.5 <= confidence pq)%Q /\
  (forall (w : World) (m : Machine) (input : str),
     exists r m', run (process_query input) w m = (Return r, m') /\
       (0.0 <= confidence (processed_query r) <= 0.9)%Q /\
       (success r = true -> (0.5 <= confidence (processed_query r))%Q) /\
       (success r = false -> confidence (processed_query r) = 0.0%Q)) /\
  (forall (w : World) (m : Machine) (input error_msg : str),
     validate_query input = (true, t, error_msg) ->
     exists r m', run (process_query input) w m = (Return r, m') /\
       (success r = true ->
        (confidence (processed_query r)
         == Qmin 0.9 (0.5 + 0.2 * inject_Z (Z.of_nat winning)))%Q)).
Proof.
  intros H. destruct (classify_some t H) as (best & E & Hin & Hpos & Hmax & _).
  destruct (analyze_fields t) as (Hq & Hc & _). cbv zeta.
  rewrite Hq, Hc, E. cbn [fst snd].
  assert (Formula : (Qmin 0.9 (0.5 + inject_Z (Z.of_nat (intent_score best (lower t))) * 0.2)
                     == Qmin 0.9 (0.5 + 0.2 * inject_Z (Z.of_nat (intent_score best (lower t)))))%Q).
  { apply Q.min_compat; [reflexivity|]. now rewrite Qmult_comm. }
  split; [exact Hin|]. split; [exact Hpos|]. split; [exact Hmax|].
  split; [exact Formula|]. split; [apply confidence_formula_bounds|]. split.
  - intros w m input. rewrite process_query_run. cbv zeta.
    destruct (validate_query input) as [[valid cleaned_text] error_msg].
    destruct valid.
    + destruct (consult w (self m) cleaned_text) as [p [e|response]];
        eexists; eexists; (split; [reflexivity|]); cbn.
      * repeat split; discriminate.
      * destruct (analyze_fields cleaned_text) as (_ & -> & _).
        destruct (determine_range cleaned_text) as [_ [Hlo Hhi]].
        split; [split; [|assumption] | split; [intros _; assumption | discriminate]].
        apply Qle_trans with 0.5%Q; [discriminate | assumption].
    + eexists; eexists; (split; [reflexivity|]); cbn.
      repeat split; discriminate.
  - intros w m input error_msg V. rewrite process_query_run, V. cbv zeta.
    destruct (consult w (self m) t) as [p [e|response]];
      eexists; eexists; (split; [reflexivity|]); cbn; [discriminate|].
    intros _. destruct (analyze_fields t) as (_ & -> & _). rewrite E. exact Formula.
Qed.

Lemma confidence_formula_and_bounds_witness :
  (exists k, In k intents /\ 0 < intent_score k (lower (py "where can i eat"))) /\
  0 < intent_score (query_type (analyze_query (py "where can i eat")))
        (lower (py "where can i eat")) /\
  (0.5 <= confidence (analyze_query (py "where can i eat")))%Q.
Proof.
  assert (H : exists k, In k intents /\
                        0 < intent_score k (lower (py "where can i eat"))).
  { exists FOOD. split; [left; reflexivity | vm_compute; repeat constructor]. }
  split; [exact H|].
  destruct (confidence_formula_and_bounds (py "where can i eat") H)
    as (_ & Hpos & _ & _ & Hlo & _).
  split; [exact Hpos | exact Hlo].
Defined.

(** ** C3 *)

(** C3. For every validated text in which no pattern of any intent's table
    matches, the analyzer returns General with confidence exactly 0.5; the
    intent is not Invalid, the confidence is not zero and the query counts
    as valid. *)
Theorem fallback_is_general (input cleaned_text error_msg : str) :
  validate_query input = (true, cleaned_text, error_msg) ->
  (forall k, In k intents -> intent_score k (lower cleaned_text) = 0) ->
  let pq := analyze_query cleaned_text in
  query_type pq = GENERAL /\ confidence pq = 0.5%Q /\
  query_type pq <> INVALID /\ ~ (confidence pq == 0)%Q /\ is_valid pq = true.
Proof.
  intros _ H. destruct (analyze_fields cleaned_text) as (Hq & Hc & _). cbv zeta.
  rewrite Hq, Hc, (classify_none cleaned_text H). cbn [fst snd].
  repeat split; try discriminate. apply analyze_is_valid.
Qed.

Lemma fallback_is_general_witness :
  validate_query (py "Hello there!") = (true, py "Hello there!", py "") /\
  (forall k, In k intents -> intent_score k (lower (py "Hello there!")) = 0) /\
  query_type (analyze_query (py "Hello there!")) = GENERAL /\
  confidence (analyze_query (py "Hello there!")) = 0.5%Q.
Proof.
  assert (V : validate_query (py "Hello there!") = (true, py "Hello there!", py ""))
    by (vm_compute; reflexivity).
  assert (Z : forall k, In k intents ->
                intent_score k (lower (py "Hello there!")) = 0).
  { intros k Hk. rewrite intents_eq in Hk.
    destruct Hk as [<- | [<- | [<- | [<- | [<- | []]]]]]; vm_compute; reflexivity. }
  split; [exact V|]. split; [exact Z|].
  destruct (fallback_is_general (py "Hello there!") (py "Hello there!") (py "") V Z)
    as (Hq & Hc & _).
  split; [exact Hq | exact Hc].
Defined.

(** ** C4 *)

(** C4. [process_query] returns on every input [t]; when the trimmed length
    is below 2 or the raw length exceeds 500 the result has success = false;
    and whenever the validator rejects, the result carries intent Invalid,
    confidence 0, no keywords, no time slot, no location slot and the
    validator's rejection reason as error message. *)
Theorem validation_boundary (w : World) (m : Machine) (t : str) :
  exists r m',
    run (process_query t) w m = (Return r, m') /\
    (length (strip t) < 2 \/ 500 < length t -> success r = false) /\
    (forall cleaned_text error_msg,
       validate_query t = (false, cleaned_text, error_msg) ->
       success r = false /\
       query_type (processed_query r) = INVALID /\
       confidence (processed_query r) = 0.0%Q /\
       keywords (processed_query r) = [] /\
       time_context (processed_query r) = None /\
       location_context (processed_query r) = None /\
       error_message r = Some error_msg).
Proof.
  destruct (process_query_returns w m t) as (r & m' & E).
  exists r, m'. split; [exact E|]. split.
  - intros H. destruct (validate_out_of_bounds t H) as [error_msg V].
    rewrite (validate_rejected_run w m t _ _ V) in E. now inversion E.
  - intros cleaned_text error_msg V.
    rewrite (validate_rejected_run w m t _ _ V) in E. inversion E.
    repeat split.
Qed.

Lemma validation_boundary_witness :
  (length (strip (py " a ")) < 2 \/ 500 < length (py " a ")) /\
  validate_query (py " a ")
    = (false, py "", py "Query too short (minimum 2 characters)") /\
  exists r m',
    run (process_query (py " a ")) world_without_files fresh_machine = (Return r, m') /\
    success r = false /\
    query_type (processed_query r) = INVALID /\
    error_message r = Some (py "Query too short (minimum 2 characters)").
Proof.
  assert (B : length (strip (py " a ")) < 2 \/ 500 < length (py " a "))
    by (left; vm_compute; repeat constructor).
  assert (V : validate_query (py " a ")
              = (false, py "", py "Query too short (minimum 2 characters)"))
    by (vm_compute; reflexivity).
  split; [exact B|]. split; [exact V|].
  destruct (validation_boundary world_without_files fresh_machine (py " a "))
    as (r & m' & E & Hb & Hv).
  exists r, m'. split; [exact E|]. split; [exact (Hb B)|].
  destruct (Hv _ _ V) as (_ & Hq & _ & _ & _ & _ & He).
  split; [exact Hq | exact He].
Defined.

(** ** C5 *)

(** C5. On "Traffic at Silk Board at 6 PM" the validator accepts the text
    unchanged and the analyzer finds intent Traffic and location
    "silk_board", but no time slot: "6 pm" with a space is in no time table.
    Every call of [process_query] on this input returns a result without a
    time slot. *)
Theorem silk_board_6_pm_has_no_time_slot :
  validate_query (py "Traffic at Silk Board at 6 PM")
    = (true, py "Traffic at Silk Board at 6 PM", py "") /\
  query_type (analyze_query (py "Traffic at Silk Board at 6 PM")) = TRAFFIC /\
  location_context (analyze_query (py "Traffic at Silk Board at 6 PM"))
    = Some (py "silk_board") /\
  time_context (analyze_query (py "Traffic at Silk Board at 6 PM")) = None /\
  (forall (w : World) (m : Machine),
     exists r m',
       run (process_query (py "Traffic at Silk Board at 6 PM")) w m = (Return r, m') /\
       time_context (processed_query r) = None).
Proof.
  assert (V : validate_query (py "Traffic at Silk Board at 6 PM")
              = (true, py "Traffic at Silk Board at 6 PM", py ""))
    by (vm_compute; reflexivity).
  assert (T : time_context (analyze_query (py "Traffic at Silk Board at 6 PM")) = None)
    by (vm_compute; reflexivity).
  split; [exact V|]. split; [vm_compute; reflexivity|].
  split; [vm_compute; reflexivity|]. split; [exact T|].
  intros w m. rewrite process_query_run, V. cbv zeta.
  destruct (consult w (self m) (py "Traffic at Silk Board at 6 PM"))
    as [p [e|response]]; eexists; eexists; (split; [reflexivity|]).
  - reflexivity.
  - exact T.
Qed.

(** ** C6 *)




(** ** C7 *)

(** C7. Cleaning is not idempotent: the whitespace is collapsed before the
    four characters are deleted, so a deleted character between two spaces
    leaves a double space, and one at the edge leaves a space at the edge.
    "a < b" is cleaned to "a  b", which a second cleaning turns into "a b";
    "< a" is cleaned to " a", which a second cleaning turns into "a". *)
Theorem clean_query_leaves_extra_whitespace :
  _clean_query (py "a < b") = py "a  b" /\
  _clean_query (_clean_query (py "a < b")) = py "a b" /\
  _clean_query (_clean_query (py "a < b")) <> _clean_query (py "a < b") /\
  _clean_query (py "< a") = py " a" /\
  _clean_query (_clean_query (py "< a")) = py "a" /\
  validate_query (py "a < b") = (true, py "a  b", py "").
Proof.
  repeat split; try (vm_compute; reflexivity). vm_compute. discriminate.
Qed.

(** ** C8 *)

(** C8. [process_query] raises on no input: every call returns a
    [QueryProcessingResult], either successful with no error message or
    failed with one; and whenever an exception leaves the [try] block, the
    result has success = false and the error message "Processing error: "
    followed by the exception's text. *)
Theorem process_query_never_raises (w : World) (m : Machine) (t : str) :
  exists r m',
    run (process_query t) w m = (Return r, m') /\
    (success r = true /\ error_message r = None \/
     success r = false /\ exists msg, error_message r = Some msg) /\
    (forall valid cleaned_text error_msg e m1,
       validate_query t = (valid, cleaned_text, error_msg) ->
       run (process_query_try t (clock w (ticks m)) valid cleaned_text error_msg) w
           {| self := self m; ticks := S (ticks m) |} = (Raise e, m1) ->
       success r = false /\
       error_message r = Some (py "Processing error: " ++ Agent.str_of_exception e)).
Proof.
  destruct (process_query_returns w m t) as (r & m' & E).
  exists r, m'. split; [exact E|]. split.
  - rewrite process_query_run in E. cbv zeta in E.
    destruct (validate_query t) as [[valid cleaned_text] error_msg].
    destruct valid.
    + destruct (consult w (self m) cleaned_text) as [p [e|response]];
        injection E as <- _; cbn; [right | left]; eauto.
    + injection E as <- _. cbn. right. eauto.
  - intros valid cleaned_text error_msg e m1 V R.
    destruct (process_query_fault w m m1 t valid cleaned_text error_msg e V R)
      as (elapsed & m2 & F).
    rewrite F in E. injection E as <- _. split; reflexivity.
Qed.

Lemma process_query_never_raises_witness :
  validate_query (py "What does guru mean?") = (true, py "What does guru mean?", py "") /\
  run (process_query_try (py "What does guru mean?")
         (clock world_without_files (ticks fresh_machine)) true
         (py "What does guru mean?") (py ""))
      world_without_files
      {| self := self fresh_machine; ticks := S (ticks fresh_machine) |}
  = (Raise (Agent.Exception (py "Product knowledge file not found: product.md")),
     {| self := self fresh_machine; ticks := S (ticks fresh_machine) |}) /\
  exists r m',
    run (process_query (py "What does guru mean?")) world_without_files fresh_machine
    = (Return r, m') /\
    success r = false /\
    error_message r
    = Some (py "Processing error: Product knowledge file not found: product.md").
Proof.
  assert (V : validate_query (py "What does guru mean?")
              = (true, py "What does guru mean?", py "")) by (vm_compute; reflexivity).
  split; [exact V|]. split; [vm_compute; reflexivity|].
  destruct (process_query_never_raises world_without_files fresh_machine
              (py "What does guru mean?")) as (r & m' & E & _ & F).
  exists r, m'. split; [exact E|].
  apply (F true (py "What does guru mean?") (py "")
           (Agent.Exception (py "Product knowledge file not found: product.md"))
           {| self := self fresh_machine; ticks := S (ticks fresh_machine) |} V).
  vm_compute. reflexivity.
Defined.

(** ** C9 *)

(** C9. For every input [t], world and processor, two successive calls of
    [process_query] on [t] both return, with the same [ProcessedQuery]
    (intent, confidence, keywords, time slot, location slot) and the same
    response, success flag and error message: only [processing_time_ms],
    taken from different clock readings, may differ.  The same holds for two
    calls of the module-level function, each on a fresh processor. *)
Theorem process_query_deterministic (w : World) (m : Machine) (t : str) :
  (exists r1 m1 r2 m2,
     run (process_query t) w m = (Return r1, m1) /\
     run (process_query t) w m1 = (Return r2, m2) /\
     query_type (processed_query r1) = query_type (processed_query r2) /\
     confidence (processed_query r1) = confidence (processed_query r2) /\
     keywords (processed_query r1) = keywords (processed_query r2) /\
     time_context (processed_query r1) = time_context (processed_query r2) /\
     location_context (processed_query r1) = location_context (processed_query r2) /\
     timeless r1 = timeless r2) /\
  (forall m' : Machine,
     exists ra ma rb mb,
       run (process_user_query_fresh t) w m = (Return ra, ma) /\
       run (process_user_query_fresh t) w m' = (Return rb, mb) /\
       timeless ra = timeless rb).
Proof.
  split.
  - rewrite process_query_run. cbv zeta.
    destruct (validate_query t) as [[valid cleaned_text] error_msg] eqn:V.
    destruct valid.
    + destruct (consult w (self m) cleaned_text) as [p reply] eqn:C.
      eexists; eexists; eexists; eexists. split; [reflexivity|].
      rewrite process_query_run, V. cbv zeta. cbn [self ticks].
      rewrite (consult_again w (self m) p cleaned_text reply C).
      split; [reflexivity|]. destruct reply; repeat split.
    + eexists; eexists; eexists; eexists. split; [reflexivity|].
      rewrite process_query_run, V. cbv zeta.
      split; [reflexivity|]. repeat split.
  - intros m'. rewrite !fresh_run, !process_query_run. cbv zeta. cbn [self ticks].
    destruct (validate_query t) as [[valid cleaned_text] error_msg].
    destruct valid.
    + destruct (consult w (new_QueryProcessor None) cleaned_text) as [p reply].
      eexists; eexists; eexists; eexists. split; [reflexivity|].
      split; [reflexivity|]. destruct reply; reflexivity.
    + eexists; eexists; eexists; eexists. split; [reflexivity|].
      split; reflexivity.
Qed.

(** ** C10 *)

(** C10. For every input accepted by the validator the analyzer assigns a
    confidence of at least 0.5 (exactly 0.5 when no pattern matches, at
    least 0.7 when one does) and an intent other than Invalid, so [is_valid]
    is true; and no call of [process_query] on that input returns the error
    message "Query could not be understood". *)
Theorem accepted_query_is_understood (t cleaned_text error_msg : str) :
  validate_query t = (true, cleaned_text, error_msg) ->
  let pq := analyze_query cleaned_text in
  (0.5 <= confidence pq)%Q /\
  ((forall k, In k intents -> intent_score k (lower cleaned_text) = 0) ->
   confidence pq = 0.5%Q) /\
  ((exists k, In k intents /\ 0 < intent_score k (lower cleaned_text)) ->
   (0.7 <= confidence pq)%Q) /\
  query_type pq <> INVALID /\
  is_valid pq = true /\
  (forall (w : World) (m : Machine),
     exists r m',
       run (process_query t) w m = (Return r, m') /\
       error_message r <> Some (py "Query could not be understood")).
Proof.
  intros V. cbv zeta.
  destruct (analyze_fields cleaned_text) as (Hq & Hc & _).
  destruct (determine_range cleaned_text) as [Hne [Hlo _]].
  rewrite Hq, Hc. split; [exact Hlo|]. split; [|split; [|split; [exact Hne|split]]].
  - intros H. now rewrite (classify_none cleaned_text H).
  - intros H. destruct (classify_some cleaned_text H) as (best & -> & _ & Hpos & _).
    cbn [snd]. now apply confidence_formula_matched.
  - apply analyze_is_valid.
  - intros w m. rewrite process_query_run, V. cbv zeta.
    destruct (consult w (self m) cleaned_text) as [p [e|response]];
      eexists; eexists; (split; [reflexivity|]); cbn; discriminate.
Qed.

Lemma accepted_query_is_understood_witness :
  validate_query (py "  Plan   one day ") = (true, py "Plan one day", py "") /\
  (0.5 <= confidence (analyze_query (py "Plan one day")))%Q /\
  is_valid (analyze_query (py "Plan one day")) = true.
Proof.
  assert (V : validate_query (py "  Plan   one day ") = (true, py "Plan one day", py ""))
    by (vm_compute; reflexivity).
  split; [exact V|].
  destruct (accepted_query_is_understood (py "  Plan   one day ") (py "Plan one day")
              (py "") V) as (H1 & _ & _ & _ & H5 & _).
  split; [exact H1 | exact H5].
Defined.

(** * Further properties *)

(** ** The validator *)

Section ValidatorMore.

Lemma search_literal (ic : flags) (w pre post : str) :
  Re.search (Lit_chars w) (pre ++ w ++ post) ic = true.
Proof.
  unfold Re.search. apply search_from_app with post.
  unfold match_here. now rewrite mtch_Lit_chars.
Qed.

(** A lazy repetition reaches any later point at which the rest of the
    pattern matches. *)
Lemma star_lazy_reach (ic : flags) (A : Type) (cs : cset) (a : str) :
  forall (prev : option ascii) (rest : str) (k : option ascii -> str -> option A) (x : A),
    Forall (fun c => cset_in ic cs c = true) a ->
    k (last_char prev a) rest = Some x ->
    exists y, Re.star ic false cs prev (a ++ rest) k = Some y.
Proof.
  induction a as [|c a IH]; intros prev rest k x Ha Hk.
  - simpl in *. destruct rest as [|d rest]; simpl; [now exists x|].
    destruct (cset_in ic cs d); rewrite Hk; now exists x.
  - inversion Ha as [|? ? Hc Ha']; subst. simpl. rewrite Hc.
    destruct (k prev (c :: a ++ rest)) as [y|]; [now exists y|].
    now apply IH with x.
Qed.

Lemma validate_forbidden (t : str) :
  existsb (fun pattern => Re.search pattern (lower t) IGNORECASE) forbidden_patterns
    = true ->
  exists error_msg,
    validate_query t = (false, py "", error_msg) /\
    (2 <= length (strip t) -> length t <= 500 ->
     error_msg = py "Query contains invalid content").
Proof.
  intros H. unfold validate_query. destruct t as [|c t].
  - eexists. split; [reflexivity|]. simpl. lia.
  - unfold min_length, max_length.
    destruct (Nat.ltb_spec (length (strip (c :: t))) 2);
      [eexists; split; [reflexivity | lia]|].
    destruct (Nat.ltb_spec 500 (length (c :: t)));
      [eexists; split; [reflexivity | lia]|].
    rewrite H. eexists. split; reflexivity.
Qed.

Lemma not_newline_any (ic : flags) (a : str) :
  Forall (fun c => c <> newline) a ->
  Forall (fun c => cset_in ic CAny c = true) a.
Proof.
  intros H. eapply Forall_impl; [|exact H]. intros c Hc. simpl.
  apply negb_true_iff. now apply Ascii.eqb_neq.
Qed.

Lemma search_script_tag (pre a b post : str) :
  Forall (fun c => c <> newline) a ->
  Forall (fun c => c <> newline) b ->
  Re.search (Cat [Lit "<script"; DotStarLazy; Lit ">"; DotStarLazy; Lit "</script>"])
    (pre ++ py "<script" ++ a ++ py ">" ++ b ++ py "</script>" ++ post) IGNORECASE
  = true.
Proof.
  intros Ha Hb. unfold Re.search.
  set (k5 := fun (_ : option ascii) (rest : str) => Some rest).
  set (k4 := fun p' s' => mtch IGNORECASE (Lit "</script>") p' s' k5).
  set (k3 := fun p' s' => mtch IGNORECASE DotStarLazy p' s' k4).
  set (k2 := fun p' s' => mtch IGNORECASE (Lit ">") p' s' k3).
  set (k1 := fun p' s' => mtch IGNORECASE DotStarLazy p' s' k2).
  assert (H4 : forall p, k4 p (py "</script>" ++ post) = Some post).
  { intros p. unfold k4, Lit. now rewrite mtch_Lit_chars. }
  assert (H3 : forall p, exists y, k3 p (b ++ py "</script>" ++ post) = Some y).
  { intros p. unfold k3, DotStarLazy. cbn [mtch].
    apply star_lazy_reach with post; [now apply not_newline_any | apply H4]. }
  assert (H2 : forall p, exists y,
               k2 p (py ">" ++ b ++ py "</script>" ++ post) = Some y).
  { intros p. unfold k2, Lit. rewrite mtch_Lit_chars. apply H3. }
  assert (H1 : forall p, exists y,
               k1 p (a ++ py ">" ++ b ++ py "</script>" ++ post) = Some y).
  { intros p. unfold k1, DotStarLazy. cbn [mtch].
    destruct (H2 (last_char p a)) as [y Hy].
    apply star_lazy_reach with y; [now apply not_newline_any | exact Hy]. }
  destruct (H1 (last_char (last_char None pre) (py "<script"))) as [y Hy].
  apply search_from_app with y. unfold match_here.
  change (mtch IGNORECASE (Lit "<script") (last_char None pre)
            (py "<script" ++ a ++ py ">" ++ b ++ py "</script>" ++ post) k1 = Some y).
  unfold Lit. rewrite mtch_Lit_chars. exact Hy.
Qed.

Lemma validate_reason (t cleaned_text error_msg : str) :
  validate_query t = (false, cleaned_text, error_msg) ->
  cleaned_text = py "" /\ In error_msg rejection_reasons.
Proof.
  unfold validate_query, rejection_reasons. destruct t as [|c t].
  - intros E. injection E as <- <-. split; [reflexivity | simpl; auto].
  - destruct (length (strip (c :: t)) <? min_length);
      [intros E; injection E as <- <-; split; [reflexivity | simpl; auto]|].
    destruct (max_length <? length (c :: t));
      [intros E; injection E as <- <-; split; [reflexivity | simpl; auto 6]|].
    destruct (existsb _ forbidden_patterns);
      [intros E; injection E as <- <-; split; [reflexivity | simpl; auto 6]|].
    discriminate.
Qed.

Lemma validate_accepted (t cleaned_text error_msg : str) :
  validate_query t = (true, cleaned_text, error_msg) ->
  2 <= length (strip t) /\ length t <= 500 /\
  existsb (fun pattern => Re.search pattern (lower t) IGNORECASE) forbidden_patterns
    = false /\
  cleaned_text = _clean_query t /\ error_msg = py "".
Proof.
  unfold validate_query. destruct t as [|c t]; [discriminate|].
  unfold min_length, max_length.
  destruct (Nat.ltb_spec (length (strip (c :: t))) 2); [discriminate|].
  destruct (Nat.ltb_spec 500 (length (c :: t))); [discriminate|].
  destruct (existsb _ forbidden_patterns); [discriminate|].
  intros E. injection E as <- <-. repeat split; assumption.
Qed.

End ValidatorMore.

Section CleanMore.

Lemma squeeze_length (s : str) : forall b, length (squeeze b s) <= length s.
Proof.
  induction s as [|c s IH]; intros b; simpl; [lia|].
  pose proof (IH true). pose proof (IH false).
  destruct (isspace c); [destruct b|]; simpl; lia.
Qed.

Lemma strip_length (s : str) : length (strip s) <= length s.
Proof.
  unfold strip, rstrip. rewrite length_rev.
  pose proof (lstrip_length (rev (lstrip s))) as H. rewrite length_rev in H.
  pose proof (lstrip_length s). lia.
Qed.

Lemma filter_length (p : ascii -> bool) (s : str) : length (filter p s) <= length s.
Proof.
  induction s as [|c s IH]; simpl; [lia|]. destruct (p c); simpl; lia.
Qed.

(** After squeezing, the only whitespace left is the plain space. *)
Lemma squeeze_plain (s : str) :
  forall b, Forall (fun c => isspace c = true -> c = " "%char) (squeeze b s).
Proof.
  induction s as [|c s IH]; intros b; simpl; [constructor|].
  destruct (isspace c) eqn:E.
  - destruct b; [apply IH|]. constructor; [reflexivity | apply IH].
  - constructor; [congruence | apply IH].
Qed.

Lemma squeeze_true_head (s : str) :
  match squeeze true s with
  | c :: _ => isspace c = false
  | [] => True
  end.
Proof.
  induction s as [|c s IH]; simpl; [exact I|].
  destruct (isspace c) eqn:E; [exact IH | exact E].
Qed.

Lemma single_spaced_cons (c d : ascii) (r : str) :
  single_spaced (c :: d :: r) = negb (isspace c && isspace d) && single_spaced (d :: r).
Proof. reflexivity. Qed.

Lemma squeeze_single_spaced (s : str) :
  forall b, single_spaced (squeeze b s) = true.
Proof.
  induction s as [|c s IH]; intros b; [reflexivity|].
  cbn [squeeze]. destruct (isspace c) eqn:E.
  - destruct b; [apply IH|].
    pose proof (squeeze_true_head s) as Hh. specialize (IH true).
    destruct (squeeze true s) as [|d r]; [reflexivity|].
    rewrite single_spaced_cons, Hh, andb_false_r. exact IH.
  - specialize (IH false).
    destruct (squeeze false s) as [|d r]; [reflexivity|].
    rewrite single_spaced_cons, E. exact IH.
Qed.

Lemma trimmed_ends (x : str) :
  trimmed x -> 2 <= length x ->
  exists c u d, x = c :: u ++ [d] /\ isspace c = false /\ isspace d = false.
Proof.
  intros [H1 H2] Hlen. destruct x as [|c s]; [simpl in Hlen; lia|].
  pose proof (trimmed_head c s H1) as Ec.
  destruct (rev (c :: s)) as [|d r] eqn:R.
  - apply (f_equal (@length ascii)) in R. rewrite length_rev in R. discriminate.
  - pose proof (trimmed_head d r H2) as Ed.
    apply (f_equal (@rev ascii)) in R. rewrite rev_involutive in R. cbn [rev] in R.
    destruct (rev r) as [|c' u] eqn:Ru.
    + rewrite R in Hlen. simpl in Hlen. lia.
    + simpl in R. injection R as -> ->. now exists c', u, d.
Qed.

Lemma squeeze_keeps_ends (c d : ascii) (u : str) :
  isspace c = false -> isspace d = false ->
  squeeze false (c :: u ++ [d]) = c :: squeeze false u ++ [d].
Proof.
  intros Ec Ed. cbn [squeeze]. rewrite Ec. now rewrite squeeze_snoc.
Qed.

Lemma filter_plain (s : str) :
  Forall (fun c => isspace c = true -> c = " "%char) s ->
  Forall (fun c => isspace c = true -> c = " "%char)
    (filter (fun c => negb (harmful c)) s).
Proof.
  induction 1 as [|c s Hc Hs IH]; simpl; [constructor|].
  destruct (negb (harmful c)); [now constructor | exact IH].
Qed.

End CleanMore.

(** X1. A text whose lower-cased form contains "javascript:", "data:" or
    "vbscript:" anywhere (also inside a longer word) is rejected; when its
    length is within bounds the reason is "Query contains invalid content". *)
Theorem denied_substring_is_rejected (t pre w post : str) :
  lower t = pre ++ w ++ post ->
  In w denied_substrings ->
  exists error_msg,
    validate_query t = (false, py "", error_msg) /\
    (2 <= length (strip t) -> length t <= 500 ->
     error_msg = py "Query contains invalid content").
Proof.
  intros E Hw. apply validate_forbidden. apply existsb_exists.
  exists (Lit_chars w). split.
  - unfold denied_substrings in Hw. simpl in Hw.
    destruct Hw as [<- | [<- | [<- | []]]]; simpl; auto.
  - rewrite E. apply search_literal.
Qed.

Lemma denied_substring_is_rejected_witness :
  lower (py "Show the metaDATA: now") = py "show the meta" ++ py "data:" ++ py " now" /\
  In (py "data:") denied_substrings /\
  validate_query (py "Show the metaDATA: now")
  = (false, py "", py "Query contains invalid content").
Proof.
  assert (E : lower (py "Show the metaDATA: now")
              = py "show the meta" ++ py "data:" ++ py " now") by reflexivity.
  assert (I : In (py "data:") denied_substrings) by (right; left; reflexivity).
  split; [exact E|]. split; [exact I|].
  destruct (denied_substring_is_rejected (py "Show the metaDATA: now") _ _ _ E I)
    as (msg & V & M).
  rewrite V. f_equal. apply M; vm_compute; repeat constructor.
Defined.

(** X2. A text whose lower-cased form contains "<script", later ">" and
    later "</script>", with no newline in between, is rejected. *)
Theorem script_tag_is_rejected (t pre a b post : str) :
  lower t = pre ++ py "<script" ++ a ++ py ">" ++ b ++ py "</script>" ++ post ->
  Forall (fun c => c <> newline) a ->
  Forall (fun c => c <> newline) b ->
  exists error_msg,
    validate_query t = (false, py "", error_msg) /\
    (2 <= length (strip t) -> length t <= 500 ->
     error_msg = py "Query contains invalid content").
Proof.
  intros E Ha Hb. apply validate_forbidden. apply existsb_exists.
  eexists. split; [left; reflexivity|].
  rewrite E. now apply search_script_tag.
Qed.

Lemma script_tag_is_rejected_witness :
  lower (py "x <SCRIPT src=a>alert(1)</Script>")
  = py "x " ++ py "<script" ++ py " src=a" ++ py ">" ++ py "alert(1)"
    ++ py "</script>" ++ py "" /\
  Forall (fun c => c <> newline) (py " src=a") /\
  Forall (fun c => c <> newline) (py "alert(1)") /\
  validate_query (py "x <SCRIPT src=a>alert(1)</Script>")
  = (false, py "", py "Query contains invalid content").
Proof.
  assert (E : lower (py "x <SCRIPT src=a>alert(1)</Script>")
              = py "x " ++ py "<script" ++ py " src=a" ++ py ">" ++ py "alert(1)"
                ++ py "</script>" ++ py "") by reflexivity.
  assert (A : Forall (fun c => c <> newline) (py " src=a"))
    by (repeat constructor; discriminate).
  assert (B : Forall (fun c => c <> newline) (py "alert(1)"))
    by (repeat constructor; discriminate).
  split; [exact E|]. split; [exact A|]. split; [exact B|].
  destruct (script_tag_is_rejected (py "x <SCRIPT src=a>alert(1)</Script>")
              _ _ _ _ E A B) as (msg & V & M).
  rewrite V. f_equal. apply M; vm_compute; repeat constructor.
Defined.

(** X3. When the validator accepts a text, the text has at least 2
    characters after trimming and at most 500 in all, the message is empty,
    and the cleaned text is no longer than the input, contains none of
    <, >, {, } and no whitespace other than the plain space. *)
Theorem accepted_text_is_scrubbed (t cleaned_text error_msg : str) :
  validate_query t = (true, cleaned_text, error_msg) ->
  2 <= length (strip t) /\ length t <= 500 /\ error_msg = py "" /\
  length cleaned_text <= length t /\
  Forall (fun c => harmful c = false) cleaned_text /\
  Forall (fun c => isspace c = true -> c = " "%char) cleaned_text.
Proof.
  intros V. destruct (validate_accepted t cleaned_text error_msg V)
    as (H2 & H500 & _ & -> & ->).
  repeat split; try assumption.
  - rewrite clean_query_eq.
    pose proof (filter_length (fun c => negb (harmful c)) (squeeze false (strip t))).
    pose proof (squeeze_length (strip t) false). pose proof (strip_length t). lia.
  - rewrite clean_query_eq. apply filter_is_safe.
  - rewrite clean_query_eq. apply filter_plain, squeeze_plain.
Qed.

Lemma accepted_text_is_scrubbed_witness :
  validate_query (py " {a}  <b> ") = (true, py "a b", py "") /\
  length (py "a b") <= length (py " {a}  <b> ") /\
  Forall (fun c => harmful c = false) (py "a b").
Proof.
  assert (V : validate_query (py " {a}  <b> ") = (true, py "a b", py ""))
    by (vm_compute; reflexivity).
  split; [exact V|].
  destruct (accepted_text_is_scrubbed (py " {a}  <b> ") (py "a b") (py "") V)
    as (_ & _ & _ & L & S & _).
  split; [exact L | exact S].
Defined.

(** X4. When the validator accepts a text that contains none of <, >, {, },
    the cleaned text is in normal form: it is the stripped text with every
    whitespace run replaced by one space, so it has no whitespace at either
    end, no two whitespace characters in a row, and at least 2 characters. *)
Theorem accepted_plain_text_is_normalized (t cleaned_text error_msg : str) :
  validate_query t = (true, cleaned_text, error_msg) ->
  Forall (fun c => harmful c = false) t ->
  cleaned_text = squeeze false (strip t) /\
  trimmed cleaned_text /\
  single_spaced cleaned_text = true /\
  2 <= length cleaned_text.
Proof.
  intros V Hsafe. destruct (validate_accepted t cleaned_text error_msg V)
    as (H2 & _ & _ & -> & _).
  rewrite (clean_safe t Hsafe). split; [reflexivity|].
  split; [apply trimmed_squeeze, strip_trimmed|].
  split; [apply squeeze_single_spaced|].
  destruct (trimmed_ends (strip t) (strip_trimmed t) H2) as (c & u & d & E & Ec & Ed).
  rewrite E, (squeeze_keeps_ends c d u Ec Ed). simpl. rewrite length_app. simpl. lia.
Qed.

Lemma accepted_plain_text_is_normalized_witness :
  validate_query (py "  one   day  trip ") = (true, py "one day trip", py "") /\
  Forall (fun c => harmful c = false) (py "  one   day  trip ") /\
  trimmed (py "one day trip") /\ single_spaced (py "one day trip") = true.
Proof.
  assert (V : validate_query (py "  one   day  trip ") = (true, py "one day trip", py ""))
    by (vm_compute; reflexivity).
  assert (S : Forall (fun c => harmful c = false) (py "  one   day  trip "))
    by (repeat constructor).
  split; [exact V|]. split; [exact S|].
  destruct (accepted_plain_text_is_normalized (py "  one   day  trip ")
              (py "one day trip") (py "") V S) as (_ & T & P & _).
  split; [exact T | exact P].
Defined.

(** ** Keywords and slots *)

Section SlotsMore.

(** What a repetition consumed, when the continuation hands back the text
    it was given. *)
Lemma star_consumed (ic : flags) (g : bool) (cs : cset)
  (k : option ascii -> str -> option str) (s : str) :
  (forall p s' r, k p s' = Some r -> r = s') ->
  forall prev rest,
    Re.star ic g cs prev s k = Some rest ->
    exists w, s = w ++ rest /\ Forall (fun c => cset_in ic cs c = true) w.
Proof.
  intros Hk. induction s as [|c s IH]; intros prev rest H.
  - simpl in H. apply Hk in H. subst. now exists [].
  - simpl in H. destruct (cset_in ic cs c) eqn:E.
    + assert (Here : k prev (c :: s) = Some rest ->
                     exists w, c :: s = w ++ rest /\
                               Forall (fun c => cset_in ic cs c = true) w).
      { intros G. apply Hk in G. subst. now exists []. }
      assert (Later : Re.star ic g cs (Some c) s k = Some rest ->
                      exists w, c :: s = w ++ rest /\
                                Forall (fun c => cset_in ic cs c = true) w).
      { intros G. destruct (IH _ _ G) as (w & -> & Hw).
        exists (c :: w). split; [reflexivity | now constructor]. }
      destruct g.
      * destruct (Re.star ic true cs (Some c) s k) as [x|] eqn:S1.
        -- injection H as ->. now apply Later.
        -- now apply Here.
      * destruct (k prev (c :: s)) as [x|] eqn:K1.
        -- injection H as ->. now apply Here.
        -- now apply Later.
    + apply Hk in H. subst. now exists [].
Qed.

(** A match of [\b\w+\b] is a non-empty run of word characters. *)
Lemma match_word_run (ic : flags) (prev : option ascii) (s rest : str) :
  match_here ic (Cat [Bnd; Plus CWord; Bnd]) prev s = Some rest ->
  exists w, w <> [] /\ s = w ++ rest /\ Forall (fun c => isword c = true) w.
Proof.
  unfold match_here. cbn [Cat Plus mtch].
  destruct (at_boundary prev s); [|discriminate].
  destruct s as [|c s]; [discriminate|]. cbn [cset_in].
  destruct (isword c) eqn:E; [|discriminate]. intros H.
  apply star_consumed in H.
  - destruct H as (w & -> & Hw). exists (c :: w).
    split; [discriminate|]. split; [reflexivity|]. now constructor.
  - intros p s' r. destruct (at_boundary p s'); [|discriminate]. congruence.
Qed.

Lemma firstn_consumed (w rest : str) :
  firstn (length (w ++ rest) - length rest) (w ++ rest) = w.
Proof.
  rewrite length_app. replace (length w + length rest - length rest) with (length w) by lia.
  rewrite firstn_app, Nat.sub_diag, firstn_all. simpl. apply app_nil_r.
Qed.

(** A property of every single match holds of every element of [findall]. *)
Lemma findall_forall (ic : flags) (r : regex) (P : str -> Prop) :
  (forall prev s rest, match_here ic r prev s = Some rest ->
                       P (firstn (length s - length rest) s)) ->
  forall s prev skip, Forall P (findall_from ic r prev s skip).
Proof.
  intros HP. induction s as [|c s IH]; intros prev skip.
  - destruct skip; cbn [findall_from]; [|constructor].
    destruct (match_here ic r prev []) as [rest|] eqn:E; [|constructor].
    constructor; [exact (HP prev [] rest E) | constructor].
  - destruct skip; cbn [findall_from]; [|apply IH].
    destruct (match_here ic r prev (c :: s)) as [rest|] eqn:E; [|apply IH].
    constructor; [exact (HP prev (c :: s) rest E) | apply IH].
Qed.

Lemma piece_of_later (k s : str) (c : ascii) : piece_of k s -> piece_of k (c :: s).
Proof. intros (pre & post & ->). now exists (c :: pre), post. Qed.

(** Every element of [findall] is a contiguous piece of the text. *)
Lemma findall_pieces (ic : flags) (r : regex) :
  forall s prev skip, Forall (fun k => piece_of k s) (findall_from ic r prev s skip).
Proof.
  assert (Prefix : forall (s : str) n, piece_of (firstn n s) s).
  { intros s n. exists [], (skipn n s). simpl. symmetry. apply firstn_skipn. }
  assert (Later : forall c s l, Forall (fun k => piece_of k s) l ->
                                Forall (fun k => piece_of k (c :: s)) l).
  { intros c s l H. eapply Forall_impl; [|exact H].
    intros k Hk. now apply piece_of_later. }
  induction s as [|c s IH]; intros prev skip.
  - destruct skip; cbn [findall_from]; [|constructor].
    destruct (match_here ic r prev []); constructor; [apply Prefix | constructor].
  - destruct skip; cbn [findall_from]; [|apply Later, IH].
    destruct (match_here ic r prev (c :: s)); [|apply Later, IH].
    constructor; [apply Prefix | apply Later, IH].
Qed.

Lemma first_match_key (table : list (str * regex)) (q key : str) :
  first_match table q = Some key -> In key (map fst table).
Proof.
  induction table as [|[name pattern] table IH]; simpl; [discriminate|].
  destruct (Re.search pattern q IGNORECASE).
  - intros E. injection E as ->. now left.
  - intros E. right. now apply IH.
Qed.

Lemma first_match_some (table : list (str * regex)) (q key : str) (pattern : regex) :
  In (key, pattern) table -> Re.search pattern q IGNORECASE = true ->
  exists key', first_match table q = Some key'.
Proof.
  induction table as [|[name p] table IH]; intros Hin Hs; [contradiction|].
  simpl. destruct (Re.search p q IGNORECASE) eqn:E; [now exists name|].
  destruct Hin as [Heq | Hin]; [|now apply IH].
  injection Heq as -> ->. congruence.
Qed.

(** The first entry of the table whose pattern is found gives the result. *)
Lemma first_match_first (l1 l2 : list (str * regex)) (q key : str) (pattern : regex) :
  (forall e, In e l1 -> Re.search (snd e) q IGNORECASE = false) ->
  Re.search pattern q IGNORECASE = true ->
  first_match (l1 ++ (key, pattern) :: l2) q = Some key.
Proof.
  intros Hno Hs. induction l1 as [|[name p] l1 IH]; simpl.
  - now rewrite Hs.
  - pose proof (Hno (name, p) (or_introl eq_refl)) as Hp. simpl in Hp.
    rewrite Hp. apply IH.
    intros e He. apply Hno. now right.
Qed.

Lemma location_patterns_eq :
  location_patterns = map (fun e => (fst e, Words [Lit_chars (snd e)])) location_phrases.
Proof. reflexivity. Qed.

Lemma analyze_keywords (t : str) :
  keywords (analyze_query t) = _extract_keywords (lower t).
Proof. unfold analyze_query. now destruct (_determine_query_type (lower t)). Qed.

Lemma piece_forall (P : ascii -> Prop) (k s : str) :
  piece_of k s -> Forall P s -> Forall P k.
Proof.
  intros (pre & post & ->) H. apply Forall_app in H. destruct H as [_ H].
  apply Forall_app in H. now destruct H.
Qed.

End SlotsMore.

(** X5. The analyzer returns at most 10 keywords; each one has at least 3
    characters, all of them word characters in lower case, is not a stop
    word, and occurs in the lower-cased text as a contiguous piece. *)
Theorem keywords_are_bounded_words (t : str) :
  length (keywords (analyze_query t)) <= 10 /\
  Forall (fun k => 3 <= length k /\
                   str_in k stop_words = false /\
                   Forall (fun c => isword c = true) k /\
                   Forall (fun c => lower_char c = c) k /\
                   piece_of k (lower t))
    (keywords (analyze_query t)).
Proof.
  rewrite analyze_keywords. unfold _extract_keywords. split.
  - apply firstn_le_length.
  - apply Forall_forall. intros k Hk.
    assert (Hf : In k (filter
                         (fun word => negb (str_in word stop_words) && (2 <? length word))
                         (Re.findall (Cat [Bnd; Plus CWord; Bnd]) (lower t) NOFLAG))).
    { revert Hk. generalize 10. intros n.
      generalize (filter (fun word => negb (str_in word stop_words) && (2 <? length word))
                    (Re.findall (Cat [Bnd; Plus CWord; Bnd]) (lower t) NOFLAG)).
      intros l. revert n. induction l as [|x l IH]; intros [|n] H; simpl in H;
        try contradiction.
      destruct H as [-> | H]; [now left | right; now apply IH with n]. }
    apply filter_In in Hf. destruct Hf as [Hin Hkeep].
    apply andb_true_iff in Hkeep. destruct Hkeep as [Hstop Hlen].
    apply negb_true_iff in Hstop. apply Nat.ltb_lt in Hlen.
    assert (Hpiece : piece_of k (lower t)).
    { unfold Re.findall in Hin.
      eapply Forall_forall in Hin; [exact Hin | apply findall_pieces]. }
    split; [exact Hlen|]. split; [exact Hstop|]. split; [|split; [|exact Hpiece]].
    + pose proof (findall_forall NOFLAG (Cat [Bnd; Plus CWord; Bnd])
                    (fun k => Forall (fun c => isword c = true) k)) as F.
      unfold Re.findall in Hin.
      eapply Forall_forall in Hin; [exact Hin | apply F].
      intros prev s rest M. destruct (match_word_run _ _ _ _ M) as (w & _ & -> & Hw).
      now rewrite firstn_consumed.
    + exact (piece_forall _ k (lower t) Hpiece (lower_is_lower t)).
Qed.

(** X6. The location slot is absent or a key of the gazetteer.  A gazetteer
    phrase occurring in the lower-cased text as a whole word always gives a
    location, and it gives its own key when no earlier entry of the table
    is found in the text. *)
Theorem location_slot_from_gazetteer (t : str) :
  (forall key, location_context (analyze_query t) = Some key ->
               In key (map fst location_phrases)) /\
  (forall key phrase pre post,
     In (key, phrase) location_phrases ->
     lower t = pre ++ phrase ++ post ->
     opt_word (last_char None pre) = false ->
     opt_word (hd_error post) = false ->
     (exists key', location_context (analyze_query t) = Some key') /\
     (forall l1 l2,
        location_patterns = l1 ++ (key, Words [Lit_chars phrase]) :: l2 ->
        (forall e, In e l1 -> Re.search (snd e) (lower t) IGNORECASE = false) ->
        location_context (analyze_query t) = Some key)).
Proof.
  rewrite analyze_location_context. unfold _extract_location_context. split.
  - intros key H. apply first_match_key in H.
    rewrite location_patterns_eq, map_map in H. exact H.
  - intros key phrase pre post Hin E Hpre Hpost.
    assert (Hs : Re.search (Words [Lit_chars phrase]) (lower t) IGNORECASE = true).
    { rewrite E. apply search_word; [now left | |].
      - unfold at_boundary. rewrite Hpre.
        unfold location_phrases in Hin. simpl in Hin.
        repeat (destruct Hin as [Hin | Hin]; [injection Hin as <- <-; reflexivity|]).
        contradiction.
      - unfold at_boundary. rewrite Hpost.
        unfold location_phrases in Hin. simpl in Hin.
        repeat (destruct Hin as [Hin | Hin]; [injection Hin as <- <-; reflexivity|]).
        contradiction. }
    split.
    + apply first_match_some with key (Words [Lit_chars phrase]); [|exact Hs].
      rewrite location_patterns_eq.
      apply (in_map (fun e => (fst e, Words [Lit_chars (snd e)])) _ _ Hin).
    + intros l1 l2 -> Hno. now apply first_match_first.
Qed.

Lemma location_slot_from_gazetteer_witness :
  In (py "silk_board", py "silk board") location_phrases /\
  lower (py "Is Silk Board bad?") = py "is " ++ py "silk board" ++ py " bad?" /\
  opt_word (last_char None (py "is ")) = false /\
  opt_word (hd_error (py " bad?")) = false /\
  exists key', location_context (analyze_query (py "Is Silk Board bad?")) = Some key'.
Proof.
  assert (I : In (py "silk_board", py "silk board") location_phrases)
    by (do 6 right; left; reflexivity).
  assert (E : lower (py "Is Silk Board bad?") = py "is " ++ py "silk board" ++ py " bad?")
    by reflexivity.
  assert (B1 : opt_word (last_char None (py "is ")) = false) by reflexivity.
  assert (B2 : opt_word (hd_error (py " bad?")) = false) by reflexivity.
  repeat (split; [assumption|]).
  exact (proj1 (proj2 (location_slot_from_gazetteer (py "Is Silk Board bad?"))
                  _ _ _ _ I E B1 B2)).
Defined.

(** ** Classification *)

Section ClassifyMore.

Lemma findall_nonempty (ic : flags) (r : regex) (s : str) :
  forall prev, search_from ic r prev s = true -> findall_from ic r prev s 0 <> [].
Proof.
  induction s as [|c s IH]; intros prev; cbn [search_from findall_from].
  - destruct (match_here ic r prev []); [discriminate | discriminate].
  - destruct (match_here ic r prev (c :: s)); [discriminate | apply IH].
Qed.

Lemma score_grows (q : str) (l : list regex) :
  forall a, a <= fold_left
                   (fun score pattern => score + length (Re.findall pattern q IGNORECASE))
                   l a.
Proof.
  induction l as [|p l IH]; intros a; simpl; [lia|].
  specialize (IH (a + length (Re.findall p q IGNORECASE))). lia.
Qed.

Lemma score_grows_strictly (q : str) (pats : list regex) (p : regex) :
  In p pats -> Re.search p q IGNORECASE = true ->
  forall a, a < fold_left
                  (fun score pattern => score + length (Re.findall pattern q IGNORECASE))
                  pats a.
Proof.
  intros Hin Hs. induction pats as [|p' pats IH]; intros a; [contradiction|].
  simpl. destruct Hin as [-> | Hin].
  - pose proof (score_grows q pats (a + length (Re.findall p q IGNORECASE))) as G.
    assert (N : 1 <= length (Re.findall p q IGNORECASE)).
    { pose proof (findall_nonempty IGNORECASE p q None Hs) as N.
      unfold Re.findall. destruct (findall_from IGNORECASE p None q 0);
        [congruence | simpl; lia]. }
    lia.
  - pose proof (IH Hin (a + length (Re.findall p' q IGNORECASE))). lia.
Qed.

Lemma pattern_score_pos (q : str) (pats : list regex) (p : regex) :
  In p pats -> Re.search p q IGNORECASE = true -> 0 < pattern_score pats q.
Proof. intros Hin Hs. exact (score_grows_strictly q pats p Hin Hs 0). Qed.

Lemma intent_score_entry (q : str) (qt : QueryType) (pats : list regex) :
  In (qt, pats) query_patterns -> intent_score qt q = pattern_score pats q.
Proof.
  unfold query_patterns. intros H. simpl in H.
  repeat (destruct H as [H | H]; [injection H as <- <-; reflexivity|]).
  contradiction.
Qed.

Lemma hd_error_app_word (w post : str) :
  opt_word (hd_error w) = true -> hd_error (w ++ post) = hd_error w.
Proof. destruct w; [discriminate | reflexivity]. Qed.

Lemma last_char_word (prev : option ascii) (w : str) :
  opt_word (last_char None w) = true -> last_char prev w = last_char None w.
Proof. destruct w; [discriminate | reflexivity]. Qed.

Lemma confidence_at_one :
  (Qmin 0.9 (0.5 + inject_Z (Z.of_nat 1) * 0.2) == 0.7)%Q.
Proof. reflexivity. Qed.

Lemma confidence_at_two_up (n : nat) :
  2 <= n -> (Qmin 0.9 (0.5 + inject_Z (Z.of_nat n) * 0.2) == 0.9)%Q.
Proof.
  intros H. apply Q.min_l.
  setoid_replace 0.9%Q with (0.5 + inject_Z 2 * 0.2)%Q by reflexivity.
  apply Qplus_le_r. apply Qmult_le_compat_r; [|discriminate].
  rewrite <- Zle_Qle. lia.
Qed.

End ClassifyMore.

(** X7. The analyzer's confidence has three levels, decided by the match
    count of the intent it returns: 0.5 for no match, 0.7 for one match, 0.9
    for two or more.  The intent is General exactly when no table matches. *)
Theorem confidence_has_three_levels (t : str) :
  let pq := analyze_query t in
  let n := intent_score (query_type pq) (lower t) in
  (confidence pq == confidence_level n)%Q /\
  (query_type pq = GENERAL <->
   forall k, In k intents -> intent_score k (lower t) = 0) /\
  (n = 0 <-> query_type pq = GENERAL).
Proof.
  cbv zeta. destruct (analyze_fields t) as (Hq & Hc & _). rewrite Hq, Hc.
  destruct (Forall_Exists_dec (fun k => intent_score k (lower t) = 0)
              (fun k => Nat.eq_dec (intent_score k (lower t)) 0) intents) as [Hz | Hnz].
  - rewrite Forall_forall in Hz. rewrite (classify_none t Hz). cbn [fst snd].
    change (intent_score GENERAL (lower t)) with 0.
    repeat split; auto; reflexivity.
  - apply Exists_exists in Hnz. destruct Hnz as (k & Hk & Hpos).
    destruct (classify_some t) as (best & -> & Hin & Hbest & _).
    { exists k. split; [exact Hk | lia]. }
    cbn [fst snd].
    assert (Hng : best <> GENERAL).
    { intros ->. rewrite intents_eq in Hin. simpl in Hin. intuition discriminate. }
    split; [|split; split].
    + destruct (intent_score best (lower t)) as [|[|n]] eqn:E; [lia | |];
        cbn [confidence_level].
      * apply confidence_at_one.
      * apply confidence_at_two_up. lia.
    + intros ->. now contradiction Hng.
    + intros Hall. specialize (Hall k Hk). lia.
    + lia.
    + intros ->. now contradiction Hng.
Qed.

(** X8. A literal entry of an intent's table that begins and ends with a
    word character and occurs in the lower-cased text as a whole word gives
    that intent a positive score; the text is then classified into one of
    the five tabled intents, never General, with confidence at least 0.7. *)
Theorem vocabulary_word_is_classified (t : str) (qt : QueryType) (pats l : list regex)
  (w pre post : str) :
  In (qt, pats) query_patterns ->
  In (Words l) pats ->
  In (Lit_chars w) l ->
  lower t = pre ++ w ++ post ->
  opt_word (hd_error w) = true ->
  opt_word (last_char None w) = true ->
  opt_word (last_char None pre) = false ->
  opt_word (hd_error post) = false ->
  0 < intent_score qt (lower t) /\
  In (query_type (analyze_query t)) intents /\
  query_type (analyze_query t) <> GENERAL /\
  (0.7 <= confidence (analyze_query t))%Q.
Proof.
  intros Hq Hp Hw E Hfirst Hlast Hpre Hpost.
  assert (Hs : Re.search (Words l) (lower t) IGNORECASE = true).
  { rewrite E. apply search_word; [exact Hw | |]; unfold at_boundary.
    - now rewrite hd_error_app_word, Hpre, Hfirst.
    - now rewrite last_char_word, Hlast, Hpost. }
  assert (Hpos : 0 < intent_score qt (lower t)).
  { rewrite (intent_score_entry (lower t) qt pats Hq).
    now apply pattern_score_pos with (Words l). }
  assert (Hin : In qt intents).
  { unfold intents. apply (in_map fst _ _ Hq). }
  destruct (classify_some t) as (best & Ebest & Hbin & Hbpos & _).
  { exists qt. now split. }
  destruct (analyze_fields t) as (Hty & Hc & _). rewrite Hty, Hc, Ebest. cbn [fst snd].
  split; [exact Hpos|]. split; [exact Hbin|]. split.
  - intros ->. rewrite intents_eq in Hbin. simpl in Hbin. intuition discriminate.
  - now apply confidence_formula_matched.
Qed.

Lemma vocabulary_word_is_classified_witness :
  lower (py "Any good CAFE nearby?") = py "any good " ++ py "cafe" ++ py " nearby?" /\
  0 < intent_score FOOD (lower (py "Any good CAFE nearby?")) /\
  query_type (analyze_query (py "Any good CAFE nearby?")) <> GENERAL.
Proof.
  assert (E : lower (py "Any good CAFE nearby?")
              = py "any good " ++ py "cafe" ++ py " nearby?") by reflexivity.
  split; [exact E|].
  assert (Hq : In (FOOD, nth 0 (map snd query_patterns) []) query_patterns)
    by (left; reflexivity).
  assert (Hp : In (Words (map Lit ["food"; "eat"; "breakfast"; "lunch"; "dinner";
                                   "restaurant"; "cafe"; "dosa"; "idli"; "meal";
                                   "hungry"; "taste"]%string))
                  (nth 0 (map snd query_patterns) [])) by (left; reflexivity).
  assert (Hw : In (Lit_chars (py "cafe"))
                  (map Lit ["food"; "eat"; "breakfast"; "lunch"; "dinner";
                            "restaurant"; "cafe"; "dosa"; "idli"; "meal";
                            "hungry"; "taste"]%string))
    by (do 6 right; left; reflexivity).
  destruct (vocabulary_word_is_classified (py "Any good CAFE nearby?") FOOD _ _
              (py "cafe") (py "any good ") (py " nearby?") Hq Hp Hw E
              eq_refl eq_refl eq_refl eq_refl) as (H1 & _ & H3 & _).
  split; [exact H1 | exact H3].
Defined.

(** ** The orchestrator *)

Section ProcessMore.

Lemma consult_state (w : World) (p0 p : QueryProcessor) (cleaned_text : str)
  (reply : Agent.PyException + Agent.AgentResponse) :
  consult w p0 cleaned_text = (p, reply) ->
  (agent_ready p0 -> agent_ready p) /\
  (_agent_initialized p0 = true -> p = p0) /\
  (forall e, load_agent w = inl e -> p = p0) /\
  (forall response, reply = inr response ->
     _agent_initialized p = true /\ Agent.agent (agent_manager p) <> None).
Proof.
  unfold consult, agent_ready. destruct p0 as [[ag] init]. cbn.
  destruct init.
  - destruct ag as [a|]; intros E; injection E as <- <-; cbn;
      repeat split; auto; try discriminate.
  - destruct (load_agent w) as [e|a]; intros E; injection E as <- <-; cbn;
      repeat split; auto; try discriminate.
Qed.

Lemma consult_initialized (w1 w2 : World) (p : QueryProcessor) (cleaned_text : str) :
  _agent_initialized p = true ->
  consult w1 p cleaned_text = consult w2 p cleaned_text.
Proof. unfold consult. now intros ->. Qed.

Lemma simple_response_run (w : World) (m : Machine) (t : str) :
  run (get_simple_response t) w m =
  match run (process_user_query_fresh t) w m with
  | (Return result, m') =>
      (Return (match success result, agent_response result with
               | true, Some response => Agent.content response
               | _, _ =>
                   match error_message result with
                   | Some (c :: message) => c :: message
                   | _ => py "Sorry, I couldn't process your query."
                   end
               end), m')
  | (Raise e, m') => (Raise e, m')
  end.
Proof. reflexivity. Qed.

End ProcessMore.

(** X9. The fields of every result agree with one another: [success] equals
    the [is_valid] of the processed query, holds exactly when a response is
    present and exactly when there is no error message.  On success the
    processed query is the analysis of the validator's cleaned text, so its
    [original_text] is the cleaned text, not the raw input; on failure it is
    the Invalid query with confidence 0.0 carrying the raw input. *)
Theorem result_fields_agree (w : World) (m : Machine) (t : str) :
  exists r m',
    run (process_query t) w m = (Return r, m') /\
    success r = is_valid (processed_query r) /\
    (success r = true <-> agent_response r <> None) /\
    (success r = true <-> error_message r = None) /\
    (success r = true ->
     exists cleaned_text,
       validate_query t = (true, cleaned_text, py "") /\
       processed_query r = analyze_query cleaned_text /\
       original_text (processed_query r) = cleaned_text) /\
    (success r = false ->
     original_text (processed_query r) = t /\
     query_type (processed_query r) = INVALID /\
     confidence (processed_query r) = 0.0%Q /\
     keywords (processed_query r) = []).
Proof.
  rewrite process_query_run. cbv zeta.
  destruct (validate_query t) as [[valid cleaned_text] error_msg] eqn:V.
  destruct valid.
  - destruct (validate_accepted t cleaned_text error_msg V) as (_ & _ & _ & _ & ->).
    destruct (consult w (self m) cleaned_text) as [p [e|response]];
      eexists; eexists; (split; [reflexivity|]); cbn.
    + repeat split; try discriminate; try congruence; intros H; now contradiction H.
    + rewrite analyze_is_valid.
      repeat split; try discriminate; try congruence.
      intros _. exists cleaned_text. repeat split.
      unfold analyze_query. now destruct (_determine_query_type (lower cleaned_text)).
  - eexists; eexists; (split; [reflexivity|]); cbn.
    repeat split; try discriminate; try congruence; intros H; now contradiction H.
Qed.

(** X10. A call keeps the processor object unchanged when the validator
    rejects, when the processor is already initialized, or when loading the
    agent fails (so the next call tries again); it never leaves the flag set
    without an agent; and after a successful call the processor is
    initialized and holds an agent. *)
Theorem processor_state_after_call (w : World) (m : Machine) (t : str) :
  exists r m',
    run (process_query t) w m = (Return r, m') /\
    (agent_ready (self m) -> agent_ready (self m')) /\
    (_agent_initialized (self m) = true -> self m' = self m) /\
    (forall e, load_agent w = inl e -> self m' = self m) /\
    (fst (fst (validate_query t)) = false -> self m' = self m) /\
    (success r = true ->
     _agent_initialized (self m') = true /\
     Agent.agent (agent_manager (self m')) <> None).
Proof.
  rewrite process_query_run. cbv zeta.
  destruct (validate_query t) as [[valid cleaned_text] error_msg].
  destruct valid.
  - destruct (consult w (self m) cleaned_text) as [p reply] eqn:C.
    destruct (consult_state w (self m) p cleaned_text reply C) as (H1 & H2 & H3 & H4).
    eexists; eexists; (split; [reflexivity|]). cbn [ticks self fst].
    split; [exact H1|]. split; [exact H2|]. split; [exact H3|].
    split; [discriminate|].
    destruct reply as [e|response]; cbn; [discriminate|]. intros _. now apply H4 with response.
  - eexists; eexists; (split; [reflexivity|]). cbn.
    repeat split; auto; discriminate.
Qed.

(** X11. Once a processor is initialized, a call no longer looks at the
    files: in two worlds that differ in what loading the agent would give,
    the same call returns the same result (elapsed time apart) and leaves
    the same processor. *)
Theorem initialized_processor_ignores_files (w1 w2 : World) (m : Machine) (t : str) :
  _agent_initialized (self m) = true ->
  exists r1 m1 r2 m2,
    run (process_query t) w1 m = (Return r1, m1) /\
    run (process_query t) w2 m = (Return r2, m2) /\
    timeless r1 = timeless r2 /\
    self m1 = self m2.
Proof.
  intros H. rewrite !process_query_run. cbv zeta.
  destruct (validate_query t) as [[valid cleaned_text] error_msg].
  destruct valid.
  - rewrite (consult_initialized w1 w2 (self m) cleaned_text H).
    destruct (consult w2 (self m) cleaned_text) as [p reply].
    eexists; eexists; eexists; eexists.
    split; [reflexivity|]. split; [reflexivity|]. split; [|reflexivity].
    now destruct reply.
  - eexists; eexists; eexists; eexists.
    split; [reflexivity|]. split; [reflexivity|]. split; reflexivity.
Qed.

Lemma initialized_processor_ignores_files_witness :
  _agent_initialized (self echo_machine) = true /\
  exists r1 m1 r2 m2,
    run (process_query (py "Plan my day")) world_without_files echo_machine
    = (Return r1, m1) /\
    run (process_query (py "Plan my day"))
        {| load_agent := inr echo_agent; clock := fun n => Z.of_nat n |} echo_machine
    = (Return r2, m2) /\
    timeless r1 = timeless r2 /\
    self m1 = self m2.
Proof.
  split; [reflexivity|].
  apply (initialized_processor_ignores_files world_without_files
           {| load_agent := inr echo_agent; clock := fun n => Z.of_nat n |}
           echo_machine (py "Plan my day")).
  reflexivity.
Defined.

(** X12. [get_simple_response] always returns a text: the validator's reason
    when the query is rejected; otherwise, on its fresh processor,
    "Processing error: " and the exception's text when loading the agent or
    the agent itself raises, and the content of the agent's response when it
    answers.  The apology of the [or] fallback is never reached. *)
Theorem simple_response_text (w : World) (m : Machine) (t : str) :
  exists s m',
    run (get_simple_response t) w m = (Return s, m') /\
    s = match validate_query t with
        | (false, _, error_msg) => error_msg
        | (true, cleaned_text, _) =>
            match load_agent w with
            | inl e => py "Processing error: " ++ Agent.str_of_exception e
            | inr a =>
                match Agent.process_query a cleaned_text with
                | inl e => py "Processing error: " ++ Agent.str_of_exception e
                | inr response => Agent.content response
                end
            end
        end.
Proof.
  rewrite simple_response_run, fresh_run, process_query_run. cbv zeta. cbn [self ticks].
  destruct (validate_query t) as [[valid cleaned_text] error_msg] eqn:V.
  destruct valid.
  - unfold consult. cbn [new_QueryProcessor _agent_initialized].
    destruct (load_agent w) as [e|a].
    + eexists; eexists; split; reflexivity.
    + destruct (Agent.process_query a cleaned_text) as [e|response];
        eexists; eexists; split; reflexivity.
  - destruct (validate_reason t cleaned_text error_msg V) as [_ Hin].
    eexists; eexists; split; [reflexivity|]. cbn.
    unfold rejection_reasons in Hin. simpl in Hin.
    destruct Hin as [<- | [<- | [<- | [<- | []]]]]; reflexivity.
Qed.

(** ** The agent's classification *)

Section AgentMore.

Import LocalAgent.

Lemma startswith_prefix (w post : str) : startswith (w ++ post) w = true.
Proof.
  induction w as [|c w IH]; [reflexivity|]. simpl. now rewrite Ascii.eqb_refl, IH.
Qed.

Lemma startswith_split (s w : str) :
  startswith s w = true -> exists post, s = w ++ post.
Proof.
  revert s. induction w as [|p w IH]; intros s H; [now exists s|].
  destruct s as [|c s]; [discriminate|]. simpl in H.
  apply andb_true_iff in H. destruct H as [Hc Hs].
  apply Ascii.eqb_eq in Hc. subst. destruct (IH s Hs) as [post ->]. now exists post.
Qed.

Lemma contains_unfold (w s : str) :
  contains w s =
  startswith s w || match s with [] => false | _ :: s' => contains w s' end.
Proof. destruct s; reflexivity. Qed.

(** [in] on strings is occurrence as a contiguous piece. *)
Lemma contains_piece (w s : str) : contains w s = true <-> piece_of w s.
Proof.
  split.
  - induction s as [|c s IH]; simpl; intros H.
    + rewrite orb_false_r in H. destruct (startswith_split [] w H) as [post E].
      now exists [], post.
    + apply orb_true_iff in H. destruct H as [H | H].
      * destruct (startswith_split (c :: s) w H) as [post E]. now exists [], post.
      * now apply piece_of_later, IH.
  - intros (pre & post & ->). induction pre as [|c pre IH].
    + cbn [app]. now rewrite contains_unfold, startswith_prefix.
    + simpl. rewrite IH. apply orb_true_r.
Qed.

Lemma any_in_piece (words : list str) (q : str) :
  any_in words q = true <-> exists w, In w words /\ piece_of w q.
Proof.
  unfold any_in. rewrite existsb_exists.
  split; intros (w & Hin & H); exists w; (split; [exact Hin|]); now apply contains_piece.
Qed.

Lemma any_in_none (words : list str) (q : str) :
  any_in words q = false <-> forall w, In w words -> ~ piece_of w q.
Proof.
  split.
  - intros H w Hin Hp. assert (any_in words q = true) by (apply any_in_piece; eauto).
    congruence.
  - intros H. destruct (any_in words q) eqn:E; [|reflexivity].
    apply any_in_piece in E. destruct E as (w & Hin & Hp). now destruct (H w Hin).
Qed.

Lemma analyze_query_type_chain (q : str) :
  _analyze_query_type q = first_category categories q.
Proof. reflexivity. Qed.

Lemma first_category_first (l1 l2 : list (str * list str)) (category : str)
  (words : list str) (q : str) :
  (forall e, In e l1 -> any_in (snd e) q = false) ->
  any_in words q = true ->
  first_category (l1 ++ (category, words) :: l2) q = category.
Proof.
  intros Hno Hyes. induction l1 as [|[c ws] l1 IH]; simpl.
  - now rewrite Hyes.
  - pose proof (Hno (c, ws) (or_introl eq_refl)) as N. simpl in N. rewrite N.
    apply IH. intros e He. apply Hno. now right.
Qed.

Lemma first_category_none (table : list (str * list str)) (q : str) :
  (forall e, In e table -> any_in (snd e) q = false) ->
  first_category table q = py "general".
Proof.
  induction table as [|[c ws] table IH]; intros H; simpl; [reflexivity|].
  pose proof (H (c, ws) (or_introl eq_refl)) as N. simpl in N. rewrite N.
  apply IH. intros e He. apply H. now right.
Qed.

End AgentMore.

(** X13. A processor built on an agent manager that already holds an agent
    starts uninitialized all the same: its first accepted query loads the
    agent again, so when loading fails the call fails with "Processing
    error: ..." and the processor stays as it was, and when loading succeeds
    the newly loaded agent answers in place of the one the manager held. *)
Theorem preinitialized_manager_is_reloaded (w : World) (a0 : Agent.BangaloreLocalAgent)
  (n : nat) (t cleaned_text error_msg : str) :
  validate_query t = (true, cleaned_text, error_msg) ->
  let p0 := new_QueryProcessor (Some {| Agent.agent := Some a0 |}) in
  exists r m',
    run (process_query t) w {| self := p0; ticks := n |} = (Return r, m') /\
    match load_agent w with
    | inl e =>
        success r = false /\
        error_message r = Some (py "Processing error: " ++ Agent.str_of_exception e) /\
        self m' = p0
    | inr a =>
        Agent.agent (agent_manager (self m')) = Some a /\
        _agent_initialized (self m') = true /\
        match Agent.process_query a cleaned_text with
        | inl e => success r = false
        | inr response => success r = true /\ agent_response r = Some response
        end
    end.
Proof.
  intros V. cbv zeta. rewrite process_query_run, V. cbv zeta.
  unfold consult. cbn [self new_QueryProcessor _agent_initialized].
  destruct (load_agent w) as [e|a].
  - eexists; eexists; (split; [reflexivity|]). repeat split.
  - destruct (Agent.process_query a cleaned_text) as [e|response];
      eexists; eexists; (split; [reflexivity|]); repeat split.
Qed.

Lemma preinitialized_manager_is_reloaded_witness :
  validate_query (py "Plan my day") = (true, py "Plan my day", py "") /\
  exists r m',
    run (process_query (py "Plan my day")) world_without_files
        {| self := new_QueryProcessor (Some {| Agent.agent := Some echo_agent |});
           ticks := 0 |} = (Return r, m') /\
    success r = false.
Proof.
  assert (V : validate_query (py "Plan my day") = (true, py "Plan my day", py ""))
    by (vm_compute; reflexivity).
  split; [exact V|].
  destruct (preinitialized_manager_is_reloaded world_without_files echo_agent 0
              (py "Plan my day") (py "Plan my day") (py "") V) as (r & m' & E & H).
  exists r, m'. split; [exact E|]. exact (proj1 H).
Defined.

(** X14. The agent's own classifier looks for its words anywhere in the
    text, also inside longer words, and the categories are tried in the
    order food, traffic, slang, itinerary, culture: the answer is the first
    category one of whose words occurs in the text, and "general" exactly
    when no word of any category occurs. *)
Theorem agent_category_by_first_occurrence (q : str) :
  (forall l1 category words l2,
     LocalAgent.categories = l1 ++ (category, words) :: l2 ->
     (forall e w, In e l1 -> In w (snd e) -> ~ piece_of w q) ->
     (exists w, In w words /\ piece_of w q) ->
     LocalAgent._analyze_query_type q = category) /\
  (LocalAgent._analyze_query_type q = py "general" <->
   forall e w, In e LocalAgent.categories -> In w (snd e) -> ~ piece_of w q).
Proof.
  rewrite analyze_query_type_chain. split.
  - intros l1 category words l2 -> Hno Hyes.
    apply first_category_first; [|now apply any_in_piece].
    intros e He. apply any_in_none. intros w Hw. now apply (Hno e w).
  - split.
    + intros H e w He Hw.
      unfold LocalAgent.categories in *. cbn [first_category] in H.
      destruct (LocalAgent.any_in LocalAgent.food_words q) eqn:F; [discriminate|].
      destruct (LocalAgent.any_in LocalAgent.traffic_words q) eqn:T; [discriminate|].
      destruct (LocalAgent.any_in LocalAgent.slang_words q) eqn:S; [discriminate|].
      destruct (LocalAgent.any_in LocalAgent.itinerary_words q) eqn:I; [discriminate|].
      destruct (LocalAgent.any_in LocalAgent.culture_words q) eqn:C; [discriminate|].
      simpl in He.
      destruct He as [<- | [<- | [<- | [<- | [<- | []]]]]]; cbn [snd] in Hw;
        [ exact (proj1 (any_in_none _ q) F w Hw)
        | exact (proj1 (any_in_none _ q) T w Hw)
        | exact (proj1 (any_in_none _ q) S w Hw)
        | exact (proj1 (any_in_none _ q) I w Hw)
        | exact (proj1 (any_in_none _ q) C w Hw) ].
    + intros H. apply first_category_none.
      intros e He. apply any_in_none. intros w Hw. now apply (H e w).
Qed.

Lemma agent_category_by_first_occurrence_witness :
  (exists w, In w LocalAgent.food_words /\ piece_of w (py "how is the weather")) /\
  LocalAgent._analyze_query_type (py "how is the weather") = py "food".
Proof.
  assert (H : exists w, In w LocalAgent.food_words /\ piece_of w (py "how is the weather")).
  { exists (py "eat"). split; [right; left; reflexivity|].
    exists (py "how is the w"), (py "her"). reflexivity. }
  split; [exact H|].
  apply (proj1 (agent_category_by_first_occurrence (py "how is the weather"))
           [] (py "food") LocalAgent.food_words _ eq_refl); [|exact H].
  intros e w [].
Defined.

(** ** The sections of the knowledge document *)

Section ContextMore.

Import ContextManager.

Lemma split_lines_nonempty (s : str) : split_lines s <> [].
Proof.
  induction s as [|c s IH]; simpl; [discriminate|].
  destruct (Ascii.eqb c newline); [discriminate|].
  destruct (split_lines s); discriminate.
Qed.

Lemma split_line (line : str) :
  Forall (fun c => c <> newline) line -> split_lines line = [line].
Proof.
  induction 1 as [|c line Hc Hl IH]; [reflexivity|].
  cbn [split_lines]. rewrite (proj2 (Ascii.eqb_neq c newline) Hc), IH. reflexivity.
Qed.

Lemma split_line_then (line rest : str) :
  Forall (fun c => c <> newline) line ->
  split_lines (line ++ newline :: rest) = line :: split_lines rest.
Proof.
  induction 1 as [|c line Hc Hl IH].
  - cbn [app split_lines]. now rewrite Ascii.eqb_refl.
  - cbn [app split_lines]. rewrite (proj2 (Ascii.eqb_neq c newline) Hc), IH. reflexivity.
Qed.

(** Splitting undoes joining, for lines without newlines. *)
Lemma split_join (lines : list str) :
  lines <> [] ->
  Forall (fun line => Forall (fun c => c <> newline) line) lines ->
  split_lines (join_lines lines) = lines.
Proof.
  induction lines as [|line lines IH]; intros Hne H; [congruence|].
  inversion H as [|? ? Hl Hrest]; subst.
  destruct lines as [|line' lines].
  - simpl. now apply split_line.
  - change (join_lines (line :: line' :: lines))
      with (line ++ newline :: join_lines (line' :: lines)).
    rewrite split_line_then by exact Hl. f_equal. apply IH; [discriminate | exact Hrest].
Qed.

Lemma step_body (l : Locals) (line : str) :
  LocalAgent.startswith line (py "## ") = false ->
  section_step l line =
  {| sections := sections l;
     current_section := current_section l;
     current_content := current_content l ++ [line] |}.
Proof. intros H. unfold section_step. now rewrite H. Qed.

Lemma steps_body (body : list str) :
  forall l,
    Forall body_line body ->
    fold_left section_step body l =
    {| sections := sections l;
       current_section := current_section l;
       current_content := current_content l ++ body |}.
Proof.
  induction body as [|line body IH]; intros l H.
  - simpl. rewrite app_nil_r. now destruct l.
  - inversion H as [|? ? [_ Hl] Hb]; subst. simpl.
    rewrite (step_body l line Hl), (IH _ Hb). cbn. now rewrite <- app_assoc.
Qed.

Lemma step_heading (l : Locals) (name : str) :
  trimmed name ->
  section_step l (py "## " ++ name) =
  {| sections := store_current l;
     current_section := Some name;
     current_content := [] |}.
Proof.
  intros H. unfold section_step.
  rewrite (startswith_prefix (py "## ") name).
  change (skipn 3 (py "## " ++ name)) with name.
  now rewrite (strip_trimmed_id name H).
Qed.

(** The loop over the lines of a document written section by section. *)
Lemma sections_loop (doc : list (str * list str)) :
  forall l,
    Forall (fun e => section_name (fst e) /\ Forall body_line (snd e)) doc ->
    store_current (fold_left section_step (section_lines doc) l) =
    fold_left (fun d e => sections_set d (fst e) (join_lines (snd e))) doc
      (store_current l).
Proof.
  induction doc as [|[name body] doc IH]; intros l H; [reflexivity|].
  inversion H as [|? ? [[Hne [_ Htrim]] Hbody] Hdoc]; subst. cbn [fst snd] in *.
  unfold section_lines. cbn [map concat fst snd].
  change (concat (map (fun e => (py "## " ++ fst e) :: snd e) doc))
    with (section_lines doc).
  change (((py "## " ++ name) :: body) ++ section_lines doc)
    with ((py "## " ++ name) :: (body ++ section_lines doc)).
  cbn [fold_left]. rewrite fold_left_app, (step_heading l name Htrim).
  rewrite (steps_body body _ Hbody). cbn [sections current_section current_content app].
  rewrite (IH _ Hdoc). cbn [fold_left fst snd]. f_equal.
  unfold store_current at 1. cbn [sections current_section current_content].
  destruct name as [|c name]; [congruence | reflexivity].
Qed.

End ContextMore.

Section ContextDict.

Import ContextManager.

Lemma str_eqb_eq (a b : str) : str_eqb a b = true <-> a = b.
Proof.
  unfold str_eqb. destruct (list_eq_dec ascii_dec a b); split; congruence.
Qed.

Lemma sections_set_fresh (d : sections_dict) (k v : str) :
  ~ In k (map fst d) -> sections_set d k v = d ++ [(k, v)].
Proof.
  induction d as [|[k' v'] d IH]; intros H; [reflexivity|].
  simpl in *. destruct (str_eqb k' k) eqn:E.
  - apply str_eqb_eq in E. tauto.
  - rewrite IH by tauto. reflexivity.
Qed.

(** With distinct names, storing the sections one after the other lists
    them in order. *)
Lemma sections_fold_distinct (doc : list (str * list str)) :
  forall acc : sections_dict,
    NoDup (map fst acc ++ map fst doc) ->
    fold_left (fun d e => sections_set d (fst e) (join_lines (snd e))) doc acc
    = acc ++ map (fun e => (fst e, join_lines (snd e))) doc.
Proof.
  induction doc as [|[name body] doc IH]; intros acc H; simpl.
  - now rewrite app_nil_r.
  - rewrite sections_set_fresh.
    + rewrite IH; [now rewrite <- app_assoc|].
      rewrite map_app. simpl. rewrite <- app_assoc. exact H.
    + simpl in H. apply NoDup_remove_2 in H. intros Hin. apply H.
      apply in_or_app. now left.
Qed.

Lemma section_lines_clean (doc : list (str * list str)) :
  Forall (fun e => section_name (fst e) /\ Forall body_line (snd e)) doc ->
  Forall (fun line => Forall (fun c => c <> newline) line) (section_lines doc).
Proof.
  induction 1 as [|[name body] doc [[_ [Hn _]] Hb] Hdoc IH]; [constructor|].
  unfold section_lines. cbn [map concat fst snd] in *.
  constructor.
  - repeat (constructor; [discriminate|]). exact Hn.
  - apply Forall_app. split; [|exact IH].
    eapply Forall_impl; [|exact Hb]. now intros line [Hl _].
Qed.

End ContextDict.

(** X15. [get_sections] reads back a document written section by section:
    when the document is a preamble followed by sections, each a heading
    line "## name" and body lines, where names are non-empty, without
    whitespace at the ends, and no line contains a newline or starts with
    "## " unless it is a heading, the result maps the names to their bodies
    joined by newlines, a later section replacing an earlier one of the same
    name, and the preamble is dropped.  With distinct names the result lists
    the sections in the order of the document. *)
Theorem get_sections_reads_document (preamble : list str) (doc : list (str * list str))
  (source : str) (updated : Z) :
  Forall body_line preamble ->
  Forall (fun e => section_name (fst e) /\ Forall body_line (snd e)) doc ->
  let context := {| ContextManager.content := render_document preamble doc;
                    ContextManager.source_file := source;
                    ContextManager.last_updated := updated |} in
  ContextManager.get_sections context
  = fold_left (fun d e => ContextManager.sections_set d (fst e) (ContextManager.join_lines (snd e)))
      doc [] /\
  (NoDup (map fst doc) ->
   ContextManager.get_sections context
   = map (fun e => (fst e, ContextManager.join_lines (snd e))) doc).
Proof.
  intros Hpre Hdoc. cbv zeta.
  assert (Main : ContextManager.get_sections
                   {| ContextManager.content := render_document preamble doc;
                      ContextManager.source_file := source;
                      ContextManager.last_updated := updated |}
                 = fold_left
                     (fun d e => ContextManager.sections_set d (fst e)
                                   (ContextManager.join_lines (snd e))) doc []).
  { unfold ContextManager.get_sections, render_document. cbn [ContextManager.content].
    destruct (preamble ++ section_lines doc) as [|line lines] eqn:E.
    - apply app_eq_nil in E. destruct E as [-> E].
      destruct doc as [|[name body] doc]; [reflexivity | discriminate].
    - rewrite <- E. rewrite split_join.
      + rewrite fold_left_app, (steps_body preamble _ Hpre).
        cbn [ContextManager.sections ContextManager.current_section ContextManager.current_content app].
        now rewrite (sections_loop doc _ Hdoc).
      + rewrite E. discriminate.
      + apply Forall_app. split; [|now apply section_lines_clean].
        eapply Forall_impl; [|exact Hpre]. now intros l [Hl _]. }
  split; [exact Main|].
  intros Hnd. rewrite Main. now rewrite (sections_fold_distinct doc []).
Qed.

Lemma get_sections_reads_document_witness :
  Forall body_line [py "# Bangalore"; py ""] /\
  Forall (fun e => section_name (fst e) /\ Forall body_line (snd e))
    [(py "City Overview", [py "Garden city."; py ""]);
     (py "Languages Spoken", [py "Kannada, English."])] /\
  ContextManager.get_sections
    {| ContextManager.content :=
         render_document [py "# Bangalore"; py ""]
           [(py "City Overview", [py "Garden city."; py ""]);
            (py "Languages Spoken", [py "Kannada, English."])];
       ContextManager.source_file := py "product.md";
       ContextManager.last_updated := 0%Z |}
  = [(py "City Overview", py "Garden city." ++ [newline]);
     (py "Languages Spoken", py "Kannada, English.")].
Proof.
  assert (P : Forall body_line [py "# Bangalore"; py ""]).
  { repeat constructor; discriminate. }
  assert (D : Forall (fun e => section_name (fst e) /\ Forall body_line (snd e))
                [(py "City Overview", [py "Garden city."; py ""]);
                 (py "Languages Spoken", [py "Kannada, English."])]).
  { repeat constructor; discriminate. }
  split; [exact P|]. split; [exact D|].
  rewrite (proj1 (get_sections_reads_document _ _ (py "product.md") 0%Z P D)).
  reflexivity.
Defined.
